(** * miniwiki: the behaviour of [wiki.js], embedded and verified

    The script [assets/js/wiki.js] builds the page chrome, the table of
    contents and the search overlay of a static wiki.  This file embeds the
    parts of it that the specification makes promises about:

    - [JS]      the string primitives of the host language the script calls;
    - [Wiki]    the methods of the [Wiki] object ([_runSearch], [buildTOC],
                [_buildNestedTOC], [buildLayout], [initDesmosEmbeds]) and the
                free functions [slugify], [escapeHtml], [wikiInitAllDesmos];
    - [Spec]    the notions the specification words its promises with;
    - [Samples] concrete catalogs, articles and embeds;
    - the facts proved about them, one section per component.

    A JavaScript string is represented by the list of its UTF-8 bytes.  Case
    mapping, [trim] and the regular-expression classes [\w] and [\s] are
    modelled on the ASCII range, where they are exact; a byte from 128 on
    counts as no letter, no digit and no white space. *)

From Stdlib Require Import Ascii Arith Lia Bool.
From Stdlib Require String DecimalString DecimalNat.
From stdpp Require Import base list strings.

Set Default Proof Using "Type".

(* ================================================================== *)
(** * Part I.  The host language: strings                              *)
(* ================================================================== *)

Module JS.

Abbreviation jsstring := (list ascii).

(** String literals of the script are written [str "..."]. *)
Definition str (s : string) : jsstring := String.list_ascii_of_string s.

(** The double quote, which the templates of the script use around every
    attribute value. *)
Definition dq : jsstring := ["034"%char].

(** The line feed that the multi-line template literals contain. *)
Definition nl : jsstring := ["010"%char].

Definition indent (n : nat) : jsstring := replicate n " "%char.

(** [String.prototype.toLowerCase], on one byte and on a string. *)
Definition toLowerChar (c : ascii) : ascii :=
  let n := nat_of_ascii c in
  if (65 <=? n) && (n <=? 90) then ascii_of_nat (n + 32) else c.

Definition toLowerCase (s : jsstring) : jsstring := map toLowerChar s.

(** The upper-case form of a byte; the script never computes it, it only
    serves to say what a case variation of a string is. *)
Definition toUpperChar (c : ascii) : ascii :=
  let n := nat_of_ascii c in
  if (97 <=? n) && (n <=? 122) then ascii_of_nat (n - 32) else c.

(** White space as [trim] and the class [\s] see it: TAB, LF, VT, FF, CR and
    the space. *)
Definition isWhiteSpace (c : ascii) : bool :=
  match nat_of_ascii c with
  | 9 | 10 | 11 | 12 | 13 | 32 => true
  | _ => false
  end.

(** Dropping the longest prefix, or suffix, made of bytes of one class. *)
Fixpoint dropWhile (f : ascii -> bool) (s : jsstring) : jsstring :=
  match s with
  | [] => []
  | c :: s' => if f c then dropWhile f s' else s
  end.

Definition dropWhileEnd (f : ascii -> bool) (s : jsstring) : jsstring :=
  reverse (dropWhile f (reverse s)).

Definition trimStart (s : jsstring) : jsstring := dropWhile isWhiteSpace s.

Definition trimEnd (s : jsstring) : jsstring := dropWhileEnd isWhiteSpace s.

(** [String.prototype.trim]. *)
Definition trim (s : jsstring) : jsstring := trimEnd (trimStart s).

(** [s.startsWith(q)] and [s.includes(q)]: [q] occurs in [s] when it is a
    prefix of [s] or occurs in the tail of [s]. *)
Fixpoint startsWith (s q : jsstring) {struct q} : bool :=
  match q, s with
  | [], _ => true
  | _ :: _, [] => false
  | c :: q', d :: s' => bool_decide (c = d) && startsWith s' q'
  end.

Fixpoint includes (s q : jsstring) : bool :=
  startsWith s q ||
  match s with
  | [] => false
  | _ :: s' => includes s' q
  end.

(** [Array.prototype.join]. *)
Fixpoint join (sep : jsstring) (parts : list jsstring) : jsstring :=
  match parts with
  | [] => []
  | [p] => p
  | p :: rest => p ++ sep ++ join sep rest
  end.

(** The decimal numeral of a non-negative integer, as string concatenation
    with a number produces it. *)
Definition numeral (n : nat) : jsstring :=
  str (DecimalString.NilEmpty.string_of_uint (Nat.to_uint n)).

(** The character classes of the regular expressions in [slugify]. *)
Definition isWordChar (c : ascii) : bool :=
  let n := nat_of_ascii c in
  ((48 <=? n) && (n <=? 57)) || ((65 <=? n) && (n <=? 90)) ||
  ((97 <=? n) && (n <=? 122)) || (n =? 95).

Definition isHyphen (c : ascii) : bool := bool_decide (c = "-"%char).

(** The line terminators that [.] refuses to match. *)
Definition isLineTerminator (c : ascii) : bool :=
  match nat_of_ascii c with
  | 10 | 13 => true
  | _ => false
  end.

(** [s.split(sep)] for a separator of one byte: the pieces between the
    separators, at least one. *)
Fixpoint split (sep : ascii) (s : jsstring) : list jsstring :=
  match s with
  | [] => [[]]
  | c :: s' =>
      if bool_decide (c = sep) then [] :: split sep s'
      else match split sep s' with
           | piece :: rest => (c :: piece) :: rest
           | [] => [[c]]
           end
  end.

(** [parts.pop()] on the array that [split] returns, which is never
    empty. *)
Definition pop (parts : list jsstring) : jsstring := default [] (last parts).

End JS.

(* ================================================================== *)
(** * Part II.  The script                                             *)
(* ================================================================== *)

Module Wiki.
Import JS.

(** ** Utility helpers *)

(** [/[\s_-]+/g] replaced by a hyphen: a separator byte writes the hyphen of
    its run when it is the last byte of the run. *)
Definition isSeparator (c : ascii) : bool :=
  isWhiteSpace c || bool_decide (c = "_"%char) || isHyphen c.

Fixpoint collapseSeparators (s : jsstring) : jsstring :=
  match s with
  | [] => []
  | c :: s' =>
      if isSeparator c then
        match s' with
        | [] => ["-"%char]
        | d :: _ => if isSeparator d then collapseSeparators s'
                    else "-"%char :: collapseSeparators s'
        end
      else c :: collapseSeparators s'
  end.

Definition slugify (text : jsstring) : jsstring :=
  let lowered := toLowerCase text in
  let kept := List.filter (fun c => isWordChar c || isWhiteSpace c || isHyphen c) lowered in
  let hyphenated := collapseSeparators kept in
  dropWhileEnd isHyphen (dropWhile isHyphen hyphenated).

(** [escapeHtml] stores the string as the text of a fresh [div] and reads the
    markup of the [div] back: the text node is serialised with [&], [<], [>]
    and the no-break space (bytes 194 160) written as entities.  Quotes are
    written as they are. *)
Definition escapeChar (c : ascii) : jsstring :=
  if bool_decide (c = "&"%char) then str "&amp;"
  else if bool_decide (c = "<"%char) then str "&lt;"
  else if bool_decide (c = ">"%char) then str "&gt;"
  else [c].

Fixpoint escapeHtml (s : jsstring) : jsstring :=
  match s with
  | [] => []
  | c :: s' =>
      match s' with
      | d :: s'' =>
          if bool_decide (c = "194"%char) && bool_decide (d = "160"%char)
          then str "&nbsp;" ++ escapeHtml s''
          else escapeChar c ++ escapeHtml s'
      | [] => escapeChar c
      end
  end.

(** An attribute as the templates write it: [name="value"]. *)
Definition attr (name : string) (value : jsstring) : jsstring :=
  str name ++ str "=" ++ dq ++ value ++ dq.

(** ** Search *)

(** One entry of [window.WIKI_SEARCH_PAGES]; [desc] and [tags] may be
    missing. *)
Record PageDescriptor := {
  title : jsstring;
  url : jsstring;
  desc : option jsstring;
  tags : option (list jsstring)
}.

#[global] Instance PageDescriptor_eq_dec : EqDecision PageDescriptor.
Proof. solve_decision. Defined.

(** The text a query is looked up in:
    [p.title + ' ' + (p.desc || '') + ' ' + (p.tags || []).join(' ')]. *)
Definition searchText (p : PageDescriptor) : jsstring :=
  title p ++ str " " ++ default [] (desc p) ++ str " " ++
  join (str " ") (default [] (tags p)).

Definition isMatch (q : jsstring) (p : PageDescriptor) : bool :=
  includes (toLowerCase (searchText p)) q.

(** What a call of [_runSearch] leaves behind: the value of its constant
    [matches] (empty when the call returns before computing it) and the
    markup assigned to [resultsEl.innerHTML]. *)
Record SearchView := {
  matches : list PageDescriptor;
  innerHTML : jsstring
}.

Definition startTyping : jsstring :=
  str "<div " ++ attr "class" (str "search-empty") ++
  str ">Start typing to search…</div>".

Definition noResults (query : jsstring) : jsstring :=
  str "<div " ++ attr "class" (str "search-empty") ++ str ">No results for " ++
  dq ++ str "<strong>" ++ escapeHtml query ++ str "</strong>" ++ dq ++
  str ".</div>".

(** [m.desc ? ... : ''] : a missing and an empty description are both
    falsy. *)
Definition resultDesc (m : PageDescriptor) : jsstring :=
  match desc m with
  | Some (c :: d) =>
      str "<div " ++ attr "class" (str "search-result-desc") ++ str ">" ++
      escapeHtml (c :: d) ++ str "</div>"
  | _ => []
  end.

Definition resultItem (m : PageDescriptor) : jsstring :=
  nl ++ indent 6 ++
  str "<div " ++ attr "class" (str "search-result-item") ++ str " " ++
  attr "role" (str "option") ++ str " " ++ attr "tabindex" (str "0") ++
  str " " ++ attr "data-url" (escapeHtml (url m)) ++ str ">" ++
  nl ++ indent 8 ++
  str "<div " ++ attr "class" (str "search-result-title") ++ str ">" ++
  escapeHtml (title m) ++ str "</div>" ++
  nl ++ indent 8 ++ resultDesc m ++
  nl ++ indent 6 ++ str "</div>".

(** The array that [filter] returns, before [slice(0, 10)] cuts it. *)
Definition filtered (searchIndex : option (list PageDescriptor))
    (query : jsstring) : list PageDescriptor :=
  let q := toLowerCase query in
  filter (fun p => isMatch q p) (default [] searchIndex).

(** [_runSearch(query, resultsEl)], with [WIKI_CONFIG.searchIndex] as first
    argument ([None] is [null]).  The listeners that make a row navigate to
    its [data-url] are outside this model. *)
Definition _runSearch (searchIndex : option (list PageDescriptor))
    (query : jsstring) : SearchView :=
  if bool_decide (trim query = []) then
    {| matches := []; innerHTML := startTyping |}
  else
    let found := take 10 (filtered searchIndex query) in
    if bool_decide (length found = 0) then
      {| matches := found; innerHTML := noResults query |}
    else
      {| matches := found; innerHTML := join [] (map resultItem found) |}.

(** ** Table of contents *)

(** The elements that [$$('h2, h3, h4', content)] selects. *)
Inductive HeadingTag := H2 | H3 | H4.

#[global] Instance HeadingTag_eq_dec : EqDecision HeadingTag.
Proof. solve_decision. Defined.

Definition tagNameOf (t : HeadingTag) : jsstring :=
  match t with
  | H2 => str "H2"
  | H3 => str "H3"
  | H4 => str "H4"
  end.

(** A heading element: the three properties [buildTOC] reads.  An element
    without an [id] attribute has the empty string as [id]. *)
Record Heading := {
  tagName : HeadingTag;
  h_id : jsstring;
  textContent : jsstring
}.

#[global] Instance Heading_eq_dec : EqDecision Heading.
Proof. solve_decision. Defined.

(** [parseInt(h.tagName[1])]. *)
Definition parseDigit (c : ascii) : nat := nat_of_ascii c - 48.

Definition headingLevel (h : Heading) : nat :=
  match tagNameOf (tagName h) !! 1 with
  | Some c => parseDigit c
  | None => 0
  end.

(** [text.replace(/\[.*?\]/g, '')]: a [[] that is followed by a []] on the
    same line is removed together with everything up to the first such []]. *)
Fixpoint closesOnLine (s : jsstring) : bool :=
  match s with
  | [] => false
  | c :: s' =>
      if bool_decide (c = "]"%char) then true
      else if isLineTerminator c then false
      else closesOnLine s'
  end.

Fixpoint stripMarkers (inside : bool) (s : jsstring) : jsstring :=
  match s with
  | [] => []
  | c :: s' =>
      if inside then
        stripMarkers (negb (bool_decide (c = "]"%char))) s'
      else if bool_decide (c = "["%char) && closesOnLine s' then
        stripMarkers true s'
      else c :: stripMarkers false s'
  end.

(** One entry of the outline: the object [{ id, text, level }]. *)
Record TocItem := {
  item_id : jsstring;
  item_text : jsstring;
  item_level : nat
}.

#[global] Instance TocItem_eq_dec : EqDecision TocItem.
Proof. solve_decision. Defined.

(** The callback of [headings.map]: the assignment to [h.id], then the
    entry read off the heading. *)
Definition assignId (i : nat) (h : Heading) : Heading :=
  if bool_decide (h_id h = []) then
    {| tagName := tagName h;
       h_id := slugify (textContent h) ++ str "-" ++ numeral i;
       textContent := textContent h |}
  else h.

Definition tocItem (h : Heading) : TocItem :=
  {| item_id := h_id h;
     item_text := trim (stripMarkers false (textContent h));
     item_level := headingLevel h |}.

(** Markup is built by appending pieces; a piece is a list tag, an entry or
    literal text, and [render] is the string the script holds. *)
Inductive Frag :=
  | OpenList
  | CloseList
  | NestedEntry (item : TocItem)
  | SidebarEntry (item : TocItem)
  | Literal (s : jsstring).

#[global] Instance Frag_eq_dec : EqDecision Frag.
Proof. solve_decision. Defined.

Definition renderFrag (f : Frag) : jsstring :=
  match f with
  | OpenList => str "<ol>"
  | CloseList => str "</ol>"
  | NestedEntry item =>
      str "<li " ++ attr "class" (str "toc-h" ++ numeral (item_level item)) ++
      str "><a " ++ attr "href" (str "#" ++ item_id item) ++ str ">" ++
      escapeHtml (item_text item) ++ str "</a></li>"
  | SidebarEntry item =>
      str "<li><a " ++ attr "href" (str "#" ++ item_id item) ++ str " " ++
      attr "class" (str "toc-h" ++ numeral (item_level item)) ++ str ">" ++
      escapeHtml (item_text item) ++ str "</a></li>"
  | Literal s => s
  end.

Definition render (html : list Frag) : jsstring := concat (map renderFrag html).

(** The entries a piece of markup lists, in order. *)
Definition entries (html : list Frag) : list TocItem :=
  omap (fun f => match f with
                 | NestedEntry item | SidebarEntry item => Some item
                 | _ => None
                 end) html.

(** The body of the [forEach] in [_buildNestedTOC], on the pair of [html]
    and [prevLevel]. *)
Definition nestedStep (st : list Frag * nat) (item : TocItem) : list Frag * nat :=
  let '(html, prevLevel) := st in
  let html :=
    if prevLevel <? item_level item then
      html ++ replicate (item_level item - prevLevel) OpenList
    else if item_level item <? prevLevel then
      html ++ replicate (prevLevel - item_level item) CloseList
    else html in
  (html ++ [NestedEntry item], item_level item).

(** [html] and [prevLevel] when the [forEach] is over. *)
Definition nestedWalk (items : list TocItem) : list Frag * nat :=
  fold_left nestedStep items ([OpenList], 2).

Definition _buildNestedTOC (items : list TocItem) : list Frag :=
  let '(html, prevLevel) := nestedWalk items in
  html ++ replicate (Nat.max (prevLevel - 1) 1) CloseList.

Definition _tocHTML (items : list TocItem) : list Frag :=
  Literal (nl ++ indent 6 ++ str "<div " ++ attr "class" (str "wiki-toc-title") ++
           str ">Contents</div>" ++ nl ++ indent 6)
  :: _buildNestedTOC items.

Definition _tocSidebarItems (items : list TocItem) : list Frag :=
  map SidebarEntry items.

Definition tocSidebarHTML (items : list TocItem) : list Frag :=
  Literal (nl ++ indent 8 ++ str "<div " ++ attr "class" (str "toc-sidebar-title") ++
           str ">On This Page</div>" ++ nl ++ indent 8 ++
           str "<ul " ++ attr "class" (str "toc-sidebar-list") ++ str ">")
  :: _tocSidebarItems items ++ [Literal (str "</ul>")].

(** What [buildTOC] sees of the page and writes to it:
    - [content]: [None] when there is no [#wiki-content], else the headings
      [$$('h2, h3, h4', content)] in document order;
    - [floatingToc]: the markup of the first [.wiki-toc.floating] inside the
      content, [None] when there is none;
    - [tocSidebar]: the markup of [#wiki-toc-sidebar], [None] when there is
      none. *)
Record TocPage := {
  content : option (list Heading);
  floatingToc : option (list Frag);
  tocSidebar : option (list Frag)
}.

Definition buildTOC (page : TocPage) : TocPage :=
  match content page with
  | None => page
  | Some headings =>
      if length headings <? 3 then page
      else
        let headings' := imap assignId headings in
        let items := map tocItem headings' in
        {| content := Some headings';
           floatingToc := (fun _ => _tocHTML items) <$> floatingToc page;
           tocSidebar := (fun _ => tocSidebarHTML items) <$> tocSidebar page |}
  end.

(** ** Page chrome *)

(** The document tree as far as [buildLayout] looks at it: elements with a
    tag, an [id] (empty when there is none), attributes and children, and
    markup assigned through [innerHTML], which is kept as the string it was
    given.  The markup of the three templates carries none of the ids that
    [buildLayout] asks for, so a [Markup] leaf answers no id query. *)
#[local] Unset Elimination Schemes.
Inductive Node :=
  | Element (tag : string) (id : jsstring) (attrs : list (string * jsstring))
            (children : list Node)
  | Markup (html : jsstring).
#[local] Set Elimination Schemes.

(** Induction on the tree, the children of an element included. *)
Fixpoint Node_ind (P : Node -> Prop)
    (HMarkup : forall html, P (Markup html))
    (HElement : forall tag id attrs children,
        Forall P children -> P (Element tag id attrs children))
    (n : Node) : P n :=
  match n with
  | Markup html => HMarkup html
  | Element tag id attrs children =>
      HElement tag id attrs children
        ((fix all (l : list Node) : Forall P l :=
            match l with
            | [] => List.Forall_nil P
            | c :: l' =>
                @List.Forall_cons Node P c l' (Node_ind P HMarkup HElement c) (all l')
            end) children)
  end.

(** The document: its title and the children of its body. *)
Record Document := {
  doc_title : jsstring;
  body : list Node
}.

(** The first answer among the nodes of a list, in order. *)
Definition firstSome {A B} (f : A -> option B) : list A -> option B :=
  fix go (l : list A) : option B :=
    match l with
    | [] => None
    | x :: l' => match f x with
                 | Some r => Some r
                 | None => go l'
                 end
    end.

(** [querySelector('#i')]: the first element, in document order, with that
    id. *)
Fixpoint findById (i : jsstring) (n : Node) : option Node :=
  match n with
  | Markup _ => None
  | Element _ j _ children =>
      if bool_decide (j = i) then Some n else firstSome (findById i) children
  end.

Definition querySelectorId (i : jsstring) (forest : list Node) : option Node :=
  firstSome (findById i) forest.

(** The number of elements with a given id. *)
Fixpoint countId (i : jsstring) (n : Node) : nat :=
  match n with
  | Markup _ => 0
  | Element _ j _ children =>
      (if bool_decide (j = i) then 1 else 0) + sum_list_with (countId i) children
  end.

Definition countIdIn (i : jsstring) (forest : list Node) : nat :=
  sum_list_with (countId i) forest.

(** Rewriting the first node of a list that a partial rewriting applies
    to. *)
Definition rewriteFirst {A} (f : A -> option A) : list A -> option (list A) :=
  fix go (l : list A) : option (list A) :=
    match l with
    | [] => None
    | x :: l' => match f x with
                 | Some x' => Some (x' :: l')
                 | None => cons x <$> go l'
                 end
    end.

Section Layout.

(** The markup the three template methods return; it depends on
    [WIKI_CONFIG], [window.WIKI_SIDEBAR], the address of the page and the
    year, and [buildLayout] stores it as it is. *)
Variables (_headerHTML _footerHTML _sidebarHTML : jsstring).

(** [window.WIKI_PAGE.title] and [WIKI_CONFIG.title]. *)
Variable pageTitle : option jsstring.
Variable siteTitle : jsstring.

Definition headerEl : Node :=
  Element "header" (str "wiki-header") [] [Markup _headerHTML].

Definition footerEl : Node :=
  Element "footer" (str "wiki-footer") [] [Markup _footerHTML].

Definition sidebarEl : Node :=
  Element "nav" (str "wiki-sidebar") [("aria-label", str "Site Navigation")]
          [Markup _sidebarHTML].

Definition tocSidebarEl : Node :=
  Element "aside" (str "wiki-toc-sidebar")
          [("aria-label", str "Table of Contents")] [].

(** The [div#wiki-layout] put where [mainContent] was, holding the sidebar,
    [mainContent] and the outline panel. *)
Definition layoutAround (mainContent : Node) : Node :=
  Element "div" (str "wiki-layout") [] [sidebarEl; mainContent; tocSidebarEl].

Fixpoint wrapContent (n : Node) : option Node :=
  match n with
  | Markup _ => None
  | Element t j a children =>
      if bool_decide (j = str "wiki-content") then Some (layoutAround n)
      else Element t j a <$> rewriteFirst wrapContent children
  end.

Definition updateTitle (d : Document) : Document :=
  match pageTitle with
  | Some (c :: t) =>
      {| doc_title := (c :: t) ++ str " — " ++ siteTitle; body := body d |}
  | _ => d
  end.

(** The three steps of [buildLayout]: the header goes in front of the first
    child of the body, the footer after the last, the layout around the
    content. *)
Definition ensureHeader (forest : list Node) : list Node :=
  match querySelectorId (str "wiki-header") forest with
  | Some _ => forest
  | None => headerEl :: forest
  end.

Definition ensureFooter (forest : list Node) : list Node :=
  match querySelectorId (str "wiki-footer") forest with
  | Some _ => forest
  | None => forest ++ [footerEl]
  end.

Definition buildLayout (d : Document) : Document :=
  let withFooter := ensureFooter (ensureHeader (body d)) in
  match querySelectorId (str "wiki-layout") withFooter with
  | Some _ => updateTitle {| doc_title := doc_title d; body := withFooter |}
  | None =>
      match querySelectorId (str "wiki-content") withFooter with
      | None => {| doc_title := doc_title d; body := withFooter |}
      | Some _ =>
          updateTitle
            {| doc_title := doc_title d;
               body := default withFooter (rewriteFirst wrapContent withFooter) |}
      end
  end.

End Layout.

(** ** Graph embeds *)

(** What [JSON.parse] makes of the text of an attribute. *)
Inductive Parsed (A : Type) :=
  | Ok (a : A)
  | Unparsable.
Arguments Ok {A} a.
Arguments Unparsable {A}.

(** An entry of [data-exprs]: an object with [latex] and [color], or a bare
    LaTeX string. *)
Inductive ExprSpec :=
  | ExprObject (latex : jsstring) (color : option jsstring)
  | ExprString (latex : jsstring).

Abbreviation Options := (list (string * jsstring)).

(** A [.wiki-desmos[data-exprs]] container. *)
Record Container := {
  data_exprs : Parsed (list ExprSpec);
  data_opts : Parsed Options;
  data_height : option jsstring;
  hasIframe : bool
}.

(** Where a calculator is mounted: on the [iframe] of the i-th container or
    on the container itself. *)
Inductive Mount :=
  | OnIframe (i : nat)
  | OnContainer (i : nat).

(** The effects of initialising embeds, in the order they happen. *)
Inductive Event :=
  | Created (at_ : Mount) (opts : Options)
  | ExpressionSet (at_ : Mount) (id : jsstring) (latex : jsstring)
                  (color : option jsstring)
  | BorderRemoved (i : nat)
  | HeightSet (i : nat) (height : jsstring)
  | Cleared (i : nat)
  | Warned (message : jsstring).

Inductive Exn := SyntaxError.

(** A computation appends to the trace of events and completes normally or
    by throwing. *)
Inductive Completion (A : Type) :=
  | Normal (a : A)
  | Thrown (e : Exn).
Arguments Normal {A} a.
Arguments Thrown {A} e.

Definition M (A : Type) : Type := list Event -> Completion A * list Event.

#[global] Instance M_ret : MRet M := fun A a tr => (Normal a, tr).

#[global] Instance M_bind : MBind M := fun A B k m tr =>
  match m tr with
  | (Normal a, tr') => k a tr'
  | (Thrown e, tr') => (Thrown e, tr')
  end.

Definition throw {A} (e : Exn) : M A := fun tr => (Thrown e, tr).

Definition emit (ev : Event) : M unit := fun tr => (Normal (), tr ++ [ev]).

(** [try { body } catch (e) { handler(e) }]. *)
Definition tryCatch {A} (body : M A) (handler : Exn -> M A) : M A := fun tr =>
  match body tr with
  | (Normal a, tr') => (Normal a, tr')
  | (Thrown e, tr') => handler e tr'
  end.

(** [list.forEach((x, i) => f x i)], counting from [i]. *)
Fixpoint forEachFrom {A} (i : nat) (f : A -> nat -> M unit) (l : list A) : M unit :=
  match l with
  | [] => mret ()
  | x :: l' => f x i ≫= fun _ => forEachFrom (S i) f l'
  end.

Definition forEach {A} (l : list A) (f : A -> nat -> M unit) : M unit :=
  forEachFrom 0 f l.

Definition JSON_parse {A} (text : Parsed A) : M A :=
  match text with
  | Ok a => mret a
  | Unparsable => throw SyntaxError
  end.

(** [calc.setExpression({ id: 'e' + i, latex: expr.latex || expr,
    color: expr.color })]. *)
Definition setExpression (at_ : Mount) (expr : ExprSpec) (i : nat) : M unit :=
  match expr with
  | ExprObject latex color => emit (ExpressionSet at_ (str "e" ++ numeral i) latex color)
  | ExprString latex => emit (ExpressionSet at_ (str "e" ++ numeral i) latex None)
  end.

Definition embedDefaults : Options :=
  [("lockViewport", str "false"); ("expressions", str "true"); ("keypad", str "true")].

(** [Wiki.initDesmosEmbeds()]; [desmos] says whether the global [Desmos] is
    defined. *)
Definition initDesmosEmbeds (desmos : bool) (containers : list Container) : M unit :=
  if negb desmos then mret ()
  else
    forEach containers (fun container i =>
      if negb (hasIframe container) then mret ()
      else
        tryCatch
          (exprs ← JSON_parse (data_exprs container);
           opts ← JSON_parse (data_opts container);
           _ ← emit (Created (OnIframe i) (embedDefaults ++ opts));
           _ ← forEach exprs (setExpression (OnIframe i));
           emit (BorderRemoved i))
          (fun e => emit (Warned (str "Desmos embed error:")))).

(** [wikiInitAllDesmos()]. *)
Definition wikiInitAllDesmos (desmos : bool) (containers : list Container) : M unit :=
  forEach containers (fun el i =>
    let height := default (str "400") (data_height el) in
    exprs ← JSON_parse (data_exprs el);
    opts ← JSON_parse (data_opts el);
    _ ← emit (HeightSet i (height ++ str "px"));
    if desmos then
      _ ← emit (Cleared i);
      _ ← emit (Created (OnContainer i) opts);
      forEach exprs (setExpression (OnContainer i))
    else mret ()).

(** ** Sidebar *)

(** [path.split('/').pop()]: the file name of an address. *)
Definition lastSegment (path : jsstring) : jsstring := pop (split "/"%char path).

(** An entry of [window.WIKI_SIDEBAR]. *)
Record SidebarLink := {
  l_text : jsstring;
  l_href : jsstring
}.

Record SidebarSection := {
  sec_label : jsstring;
  sec_links : list SidebarLink
}.

(** The pieces [_sidebarHTML] joins: the placeholder, the opening of a
    section, a link with or without [class="active"], the closing of a
    section. *)
Inductive SidebarPiece :=
  | NoSidebar
  | SectionOpen (label : jsstring)
  | LinkItem (l : SidebarLink) (isActive : bool)
  | SectionClose.

Definition renderSidebarPiece (piece : SidebarPiece) : jsstring :=
  match piece with
  | NoSidebar =>
      str "<p " ++
      attr "style" (str "color:var(--text-light);font-size:0.8rem;padding:0.5rem") ++
      str ">No sidebar defined.</p>"
  | SectionOpen label =>
      nl ++ indent 6 ++ str "<div " ++ attr "class" (str "sidebar-section") ++ str ">" ++
      nl ++ indent 8 ++ str "<div " ++ attr "class" (str "sidebar-section-title") ++
      str ">" ++ escapeHtml label ++ str "</div>" ++
      nl ++ indent 8 ++ str "<ul " ++ attr "class" (str "sidebar-nav") ++ str ">" ++
      nl ++ indent 10
  | LinkItem l isActive =>
      nl ++ indent 12 ++ str "<li><a " ++ attr "href" (l_href l) ++ str " " ++
      (if isActive then attr "class" (str "active") else []) ++ str ">" ++
      escapeHtml (l_text l) ++ str "</a></li>" ++ nl ++ indent 10
  | SectionClose =>
      nl ++ indent 8 ++ str "</ul>" ++ nl ++ indent 6 ++ str "</div>" ++ nl ++ indent 4
  end.

(** [_sidebarHTML()], with [window.WIKI_SIDEBAR] ([None] when not defined),
    [WIKI_CONFIG.sidebarLinks] and [window.location.pathname]. *)
Definition _sidebarHTML (WIKI_SIDEBAR : option (list SidebarSection))
    (sidebarLinks : list SidebarSection) (pathname : jsstring) : list SidebarPiece :=
  match default sidebarLinks WIKI_SIDEBAR with
  | [] => [NoSidebar]
  | sections =>
      concat (map (fun sec =>
        SectionOpen (sec_label sec)
        :: map (fun l => LinkItem l (bool_decide (l_href l = lastSegment pathname)))
               (sec_links sec)
        ++ [SectionClose]) sections)
  end.

(** A link of [#wiki-sidebar .sidebar-nav]: its [href] attribute, [None]
    when it has none, and whether its class list holds [active]. *)
Record NavLink := {
  href : option jsstring;
  active : bool
}.

(** [window.location.pathname.split('/').pop() || 'index.html']. *)
Definition currentPage (pathname : jsstring) : jsstring :=
  match lastSegment pathname with
  | [] => str "index.html"
  | name => name
  end.

(** The callback of [highlightSidebar]; [None] is the [TypeError] that
    [getAttribute('href').split] raises on a link without [href]. *)
Definition highlightLink (current : jsstring) (a : NavLink) : option NavLink :=
  match href a with
  | None => None
  | Some h =>
      Some (if bool_decide (lastSegment h = current)
            then {| href := href a; active := true |}
            else a)
  end.

Definition highlightSidebar (pathname : jsstring) (links : list NavLink)
    : option (list NavLink) :=
  mapM (highlightLink (currentPage pathname)) links.

(** ** Scroll spy *)

(** A link of [.toc-sidebar-list] and an entry handed to the observer's
    callback. *)
Record SpyLink := {
  s_href : jsstring;
  s_active : bool
}.

Record SpyEntry := {
  isIntersecting : bool;
  targetId : jsstring
}.

(** [links.find(l => l.getAttribute('href') === h)] followed by
    [classList.add('active')] on what it found. *)
Fixpoint activateFirst (h : jsstring) (links : list SpyLink) : list SpyLink :=
  match links with
  | [] => []
  | l :: rest =>
      if bool_decide (s_href l = h)
      then {| s_href := s_href l; s_active := true |} :: rest
      else l :: activateFirst h rest
  end.

Definition deactivate (l : SpyLink) : SpyLink :=
  {| s_href := s_href l; s_active := false |}.

Definition spyEntry (links : list SpyLink) (entry : SpyEntry) : list SpyLink :=
  if isIntersecting entry
  then activateFirst (str "#" ++ targetId entry) (map deactivate links)
  else links.

(** The callback of the [IntersectionObserver]. *)
Definition spyCallback (links : list SpyLink) (entries : list SpyEntry)
    : list SpyLink :=
  fold_left spyEntry entries links.

(** ** Tabs *)

(** A [.wiki-tabs] container: for each button and each panel, whether its
    class list holds [active]. *)
Record TabContainer := {
  buttons : list bool;
  panels : list bool
}.

(** [if (buttons[0]) buttons[0].classList.add('active')], and the same for
    the panels. *)
Definition initTabs (t : TabContainer) : TabContainer :=
  {| buttons := <[0 := true]> (buttons t); panels := <[0 := true]> (panels t) |}.

(** The click listener of the i-th button. *)
Definition clickTab (i : nat) (t : TabContainer) : TabContainer :=
  {| buttons := <[i := true]> (map (fun _ => false) (buttons t));
     panels := <[i := true]> (map (fun _ => false) (panels t)) |}.

(** ** Collapsibles *)

(** A [.wiki-collapsible]: whether it has a header, how many icons the
    header holds, how many click listeners the header carries, and whether
    the class list holds [open]. *)
Record Collapsible := {
  hasHeader : bool;
  icons : nat;
  clickListeners : nat;
  isOpen : bool
}.

Definition initCollapsible (col : Collapsible) : Collapsible :=
  if negb (hasHeader col) then col
  else
    {| hasHeader := true;
       icons := if icons col =? 0 then 1 else icons col;
       clickListeners := S (clickListeners col);
       isOpen := isOpen col |}.

(** A click on the header: every listener toggles [open]. *)
Definition clickHeader (col : Collapsible) : Collapsible :=
  {| hasHeader := hasHeader col;
     icons := icons col;
     clickListeners := clickListeners col;
     isOpen := Nat.iter (clickListeners col) negb (isOpen col) |}.

(** ** Search overlay *)

(** The overlay of [initSearch]: whether it is shown, the value of the
    header input ([None] when the page has no header input), the value of
    the overlay input, and what [#search-results] holds. *)
Record SearchOverlay := {
  overlayActive : bool;
  headerInput : option jsstring;
  overlayInput : jsstring;
  results : SearchView
}.

Definition openSearch (searchIndex : option (list PageDescriptor))
    (s : SearchOverlay) : SearchOverlay :=
  let value := default [] (headerInput s) in
  {| overlayActive := true;
     headerInput := headerInput s;
     overlayInput := value;
     results := _runSearch searchIndex value |}.

Definition closeSearch (s : SearchOverlay) : SearchOverlay :=
  {| overlayActive := false;
     headerInput := (fun _ => []) <$> headerInput s;
     overlayInput := overlayInput s;
     results := results s |}.

(** The [input] listener of the overlay input, after the user made its
    value [value]. *)
Definition overlayTyped (searchIndex : option (list PageDescriptor))
    (value : jsstring) (s : SearchOverlay) : SearchOverlay :=
  {| overlayActive := overlayActive s;
     headerInput := headerInput s;
     overlayInput := value;
     results := _runSearch searchIndex value |}.

(** A new value of the header input, which no listener watches. *)
Definition headerTyped (value : jsstring) (s : SearchOverlay) : SearchOverlay :=
  {| overlayActive := overlayActive s;
     headerInput := (fun _ => value) <$> headerInput s;
     overlayInput := overlayInput s;
     results := results s |}.

(** What the user and the page do to the overlay: focus on the header input
    or a click on its button; a click on the close button or on the
    backdrop, or the Escape key; typing in the overlay input; a new value
    of the header input. *)
Inductive SearchEvent :=
  | OpenRequested
  | CloseRequested
  | Typed (value : jsstring)
  | HeaderTyped (value : jsstring).

Definition searchStep (searchIndex : option (list PageDescriptor))
    (s : SearchOverlay) (ev : SearchEvent) : SearchOverlay :=
  match ev with
  | OpenRequested => openSearch searchIndex s
  | CloseRequested => closeSearch s
  | Typed value => overlayTyped searchIndex value s
  | HeaderTyped value => headerTyped value s
  end.

(** The overlay as [initSearch] creates it. *)
Definition initSearch (input : option jsstring) : SearchOverlay :=
  {| overlayActive := false;
     headerInput := input;
     overlayInput := [];
     results := {| matches := []; innerHTML := [] |} |}.

(** ** Lightbox *)

(** An image of a gallery or a figure. *)
Record Image := {
  img_src : jsstring;
  img_alt : jsstring;
  figcaption : option jsstring
}.

(** The lightbox and the [overflow] of the body. *)
Record Lightbox := {
  lb_display : jsstring;
  lb_src : jsstring;
  lb_cap : jsstring;
  bodyOverflow : jsstring
}.

Inductive LightboxEvent :=
  | ImageClicked (img : Image)
  | LightboxClicked
  | KeyPressed (key : jsstring).

(** [img.alt || img.closest('figure')?.querySelector('figcaption')?.textContent
    || '']. *)
Definition captionOf (img : Image) : jsstring :=
  match img_alt img with
  | c :: alt => c :: alt
  | [] => default [] (figcaption img)
  end.

Definition lightboxStep (lb : Lightbox) (ev : LightboxEvent) : Lightbox :=
  match ev with
  | ImageClicked img =>
      {| lb_display := str "flex"; lb_src := img_src img;
         lb_cap := captionOf img; bodyOverflow := str "hidden" |}
  | LightboxClicked =>
      {| lb_display := str "none"; lb_src := lb_src lb;
         lb_cap := lb_cap lb; bodyOverflow := [] |}
  | KeyPressed key =>
      if bool_decide (key = str "Escape") && bool_decide (lb_display lb = str "flex")
      then {| lb_display := str "none"; lb_src := lb_src lb;
              lb_cap := lb_cap lb; bodyOverflow := [] |}
      else lb
  end.

(** The lightbox as [initGalleryLightbox] creates it on a page whose body
    has the given [overflow]. *)
Definition initGalleryLightbox (overflow : jsstring) : Lightbox :=
  {| lb_display := str "none"; lb_src := []; lb_cap := []; bodyOverflow := overflow |}.

(** ** Theme *)

(** Whether the class list of the root element holds [dark], and the value
    stored under [wiki-theme]. *)
Record Theme := {
  darkClass : bool;
  stored : option jsstring
}.

Definition initTheme (t : Theme) : Theme :=
  if bool_decide (stored t = Some (str "dark"))
  then {| darkClass := true; stored := stored t |}
  else t.

Definition toggleTheme (t : Theme) : Theme :=
  let isDark := negb (darkClass t) in
  {| darkClass := isDark;
     stored := Some (if isDark then str "dark" else str "light") |}.

(** ** External links *)

(** A link: its [href] attribute, the host of the address it resolves to,
    its [target] and [rel], whether it holds an [.ext-icon], and how many
    arrows have been appended to it. *)
Record Anchor := {
  a_href : jsstring;
  a_hostname : jsstring;
  a_target : option jsstring;
  a_rel : option jsstring;
  hasExtIcon : bool;
  arrows : nat
}.

(** [markExternalLinks()] on one link; the selector [a[href^="http"]] is the
    first test. *)
Definition markExternalLink (pageHost : jsstring) (a : Anchor) : Anchor :=
  if negb (startsWith (a_href a) (str "http")) then a
  else if bool_decide (a_hostname a = []) || bool_decide (a_hostname a = pageHost)
  then a
  else
    {| a_href := a_href a;
       a_hostname := a_hostname a;
       a_target := Some (str "_blank");
       a_rel := Some (str "noopener noreferrer");
       hasExtIcon := hasExtIcon a;
       arrows := if hasExtIcon a then arrows a else S (arrows a) |}.

Definition markExternalLinks (pageHost : jsstring) (links : list Anchor)
    : list Anchor :=
  map (markExternalLink pageHost) links.

(** ** The helper [wikiDesmos] *)

(** What a call of [wikiDesmos] does: nothing when the container is
    missing; the events of a calculator; or the markup of the fallback. *)
Inductive DesmosOutcome :=
  | NoContainer
  | Calculator (events : list Event)
  | FallbackShown (html : jsstring).

Section WikiDesmos.

(** [Desmos.Colors.BLUE], a constant of the library. *)
Variable BLUE : jsstring.

(** The object handed to [calc.setExpression] for the i-th expression. *)
Definition helperExpression (at_ : Mount) (i : nat) (expr : ExprSpec) : Event :=
  match expr with
  | ExprObject latex (Some (c :: color)) =>
      ExpressionSet at_ (str "eq" ++ numeral i) latex (Some (c :: color))
  | ExprObject latex _ =>
      ExpressionSet at_ (str "eq" ++ numeral i) latex (Some BLUE)
  | ExprString latex =>
      ExpressionSet at_ (str "eq" ++ numeral i) latex (Some BLUE)
  end.

Definition latexOf (expr : ExprSpec) : jsstring :=
  match expr with
  | ExprObject latex _ => latex
  | ExprString latex => latex
  end.

Definition helperDefaults : Options :=
  [("lockViewport", str "false"); ("expressions", str "true"); ("keypad", str "false")].

Definition fallbackMarkup (latex : jsstring) : jsstring :=
  str "<div " ++
  attr "style" (str "padding:1rem;color:var(--text-muted);font-size:0.9rem") ++
  str ">" ++ nl ++ indent 6 ++ str "📈 <strong>Desmos graph:</strong> " ++
  escapeHtml latex ++ str "<br>" ++ nl ++ indent 6 ++
  str "<a " ++ attr "href" (str "https://www.desmos.com/calculator") ++ str " " ++
  attr "target" (str "_blank") ++ str " " ++ attr "rel" (str "noopener") ++
  str ">Open in Desmos ↗</a>" ++ nl ++ indent 4 ++ str "</div>".

(** [wikiDesmos(containerId, expressions, options)]; [container] is the
    element the id names, if any. *)
Definition wikiDesmos (container : option nat) (desmos : bool)
    (expressions : list ExprSpec) (options : Options) : DesmosOutcome :=
  match container with
  | None => NoContainer
  | Some c =>
      if desmos then
        Calculator
          (Created (OnContainer c) (helperDefaults ++ options)
           :: imap (helperExpression (OnContainer c)) expressions)
      else
        FallbackShown (fallbackMarkup (join (str ", ") (map latexOf expressions)))
  end.

End WikiDesmos.

End Wiki.

(* ================================================================== *)
(** * Part III.  Notions the specification uses                        *)
(* ================================================================== *)

Module Spec.
Import JS Wiki.

(** [q] occurs in [s] as a substring. *)
Definition Substring (q s : jsstring) : Prop :=
  exists pre post, s = pre ++ q ++ post.

(** A query is blank when it is empty or made of white space only. *)
Definition Blank (q : jsstring) : Prop :=
  Forall (fun c => isWhiteSpace c = true) q.

(** [q] is a case variation of [t]: the same length, and at every position
    the same byte, its upper-case or its lower-case form. *)
Definition caseVariant (a b : ascii) : Prop :=
  a = b \/ a = toUpperChar b \/ a = toLowerChar b.

Definition CaseVariation (q t : jsstring) : Prop := Forall2 caseVariant q t.

(** The searched text as the specification words it: the concatenation of
    the title, the description and the tags joined by spaces. *)
Definition specText (p : PageDescriptor) : jsstring :=
  title p ++ default [] (desc p) ++ join (str " ") (default [] (tags p)).

Definition specMatch (query : jsstring) (p : PageDescriptor) : bool :=
  includes (toLowerCase (specText p)) (toLowerCase query).

(** The bytes a slug is made of: lower-case letters, digits and the
    hyphen. *)
Definition isSlugChar (c : ascii) : bool :=
  let n := nat_of_ascii c in
  isHyphen c || ((48 <=? n) && (n <=? 57)) || ((97 <=? n) && (n <=? 122)).

(** No two hyphens in a row. *)
Fixpoint noDoubleHyphen (s : jsstring) : bool :=
  match s with
  | c :: (d :: _) as s' => negb (isHyphen c && isHyphen d) && noDoubleHyphen s'
  | _ => true
  end.

(** The bytes that open and close a tag. *)
Definition isAngle (c : ascii) : Prop := c = "<"%char \/ c = ">"%char.

(** How many elements with a given id a new layout brings along: itself
    and its two panels. *)
Definition chromeIds (i : jsstring) : nat :=
  countId i (layoutAround [] (Markup [])).

(** The events that one container, taken alone, contributes to
    [initDesmosEmbeds]: nothing without an [iframe]; a calculator, its
    expressions and the border when both attributes parse; one warning
    otherwise. *)
Definition expressionEvent (at_ : Mount) (expr : ExprSpec) (j : nat) : Event :=
  match expr with
  | ExprObject latex color => ExpressionSet at_ (str "e" ++ numeral j) latex color
  | ExprString latex => ExpressionSet at_ (str "e" ++ numeral j) latex None
  end.

Definition embedEvents (container : Container) (i : nat) : list Event :=
  if hasIframe container then
    match data_exprs container, data_opts container with
    | Ok exprs, Ok opts =>
        Created (OnIframe i) (embedDefaults ++ opts)
        :: imap (fun j expr => expressionEvent (OnIframe i) expr j) exprs
        ++ [BorderRemoved i]
    | _, _ => [Warned (str "Desmos embed error:")]
    end
  else [].

(** The number of list levels a piece of markup opens and closes. *)
Definition opened (html : list Frag) : nat :=
  length (filter (fun f => f = OpenList) html).

Definition closed (html : list Frag) : nat :=
  length (filter (fun f => f = CloseList) html).

(** Reading markup from the left, the number of levels open after each
    piece; [None] as soon as a level is closed that was never opened. *)
Fixpoint depthFrom (d : nat) (html : list Frag) : option nat :=
  match html with
  | [] => Some d
  | OpenList :: html' => depthFrom (S d) html'
  | CloseList :: html' =>
      match d with
      | 0 => None
      | S d' => depthFrom d' html'
      end
  | _ :: html' => depthFrom d html'
  end.

(** Reading entities back: the text a parser makes of the four entities
    that [escapeHtml] writes.  [skip] counts the bytes of an entity still to
    be passed over. *)
Fixpoint unescapeFrom (skip : nat) (s : jsstring) : jsstring :=
  match s with
  | [] => []
  | c :: s' =>
      match skip with
      | S k => unescapeFrom k s'
      | 0 =>
          if startsWith s (str "&amp;") then "&"%char :: unescapeFrom 4 s'
          else if startsWith s (str "&lt;") then "<"%char :: unescapeFrom 3 s'
          else if startsWith s (str "&gt;") then ">"%char :: unescapeFrom 3 s'
          else if startsWith s (str "&nbsp;") then
            "194"%char :: "160"%char :: unescapeFrom 5 s'
          else c :: unescapeFrom 0 s'
      end
  end.

Definition unescapeHtml (s : jsstring) : jsstring := unescapeFrom 0 s.

(** A text holds a citation marker when some [[] is followed by a []] on
    its line. *)
Fixpoint hasMarker (s : jsstring) : bool :=
  match s with
  | [] => false
  | c :: s' => (bool_decide (c = "["%char) && closesOnLine s') || hasMarker s'
  end.

(** The entries of a nested list with the number of lists open around
    each, reading from depth [d]. *)
Fixpoint entryDepths (d : nat) (html : list Frag) : list (TocItem * nat) :=
  match html with
  | [] => []
  | OpenList :: html' => entryDepths (S d) html'
  | CloseList :: html' => entryDepths (Nat.pred d) html'
  | NestedEntry item :: html' => (item, d) :: entryDepths d html'
  | _ :: html' => entryDepths d html'
  end.

(** A container both of whose attributes parse, and the events that such a
    container, taken alone, contributes to [wikiInitAllDesmos]. *)
Definition parses (el : Container) : Prop :=
  data_exprs el <> Unparsable /\ data_opts el <> Unparsable.

Definition standaloneEvents (desmos : bool) (el : Container) (i : nat) : list Event :=
  match data_exprs el, data_opts el with
  | Ok exprs, Ok opts =>
      HeightSet i (default (str "400") (data_height el) ++ str "px")
      :: (if desmos then
            Cleared i :: Created (OnContainer i) opts
            :: imap (fun j expr => expressionEvent (OnContainer i) expr j) exprs
          else [])
  | _, _ => []
  end.

(** Sections whose links have an [href] without double quote, ampersand
    and control character: the attribute that the markup of the sidebar
    carries is then the [href] as it was written. *)
Definition plainHrefs (sections : list SidebarSection) : Prop :=
  Forall (fun sec =>
    Forall (fun l =>
      Forall (fun c => 32 <= nat_of_ascii c /\ c <> "034"%char /\ c <> "&"%char)
        (l_href l)) (sec_links sec)) sections.

(** The links of the sidebar as [highlightSidebar] finds them in the
    markup of [_sidebarHTML] (each [href] read as it was written), and a
    link with its mark taken off. *)
Definition sidebarAnchors (pieces : list SidebarPiece) : list NavLink :=
  omap (fun piece => match piece with
                     | LinkItem l isActive =>
                         Some {| href := Some (l_href l); active := isActive |}
                     | _ => None
                     end) pieces.

Definition unmarked (a : NavLink) : NavLink := {| href := href a; active := false |}.

(** The number of links of the outline that are marked. *)
Definition activeCount (links : list SpyLink) : nat :=
  length (filter (fun l => s_active l = true) links).

(** A page load: the class list of the root element is that of the markup,
    without [dark]; the storage is kept. *)
Definition reload (t : Theme) : Theme := {| darkClass := false; stored := stored t |}.

(** A link that [markExternalLinks] treats as external. *)
Definition isExternal (pageHost : jsstring) (a : Anchor) : Prop :=
  startsWith (a_href a) (str "http") = true /\
  a_hostname a <> [] /\ a_hostname a <> pageHost.

(** The ids and the colors of the expressions in a list of events. *)
Definition expressionIds (events : list Event) : list jsstring :=
  omap (fun ev => match ev with
                  | ExpressionSet _ id _ _ => Some id
                  | _ => None
                  end) events.

Definition expressionColors (events : list Event) : list (option jsstring) :=
  omap (fun ev => match ev with
                  | ExpressionSet _ _ _ color => Some color
                  | _ => None
                  end) events.

(** What the overlay shows is the search for what its input holds, unless
    it was never opened nor typed into. *)
Definition overlayInSync (idx : option (list PageDescriptor))
    (input : option jsstring) (s : SearchOverlay) : Prop :=
  (results s = results (initSearch input) /\ overlayInput s = []) \/
  results s = _runSearch idx (overlayInput s).

(** The lightbox is shown and the page locked, or hidden and the page as it
    was or unlocked. *)
Definition lightboxConsistent (overflow : jsstring) (lb : Lightbox) : Prop :=
  (lb_display lb = str "flex" /\ bodyOverflow lb = str "hidden") \/
  (lb_display lb = str "none" /\ (bodyOverflow lb = [] \/ bodyOverflow lb = overflow)).

(** A page none of whose headings carries a double quote in its id.  The
    outline writes the id between double quotes, so on such a page the
    outline brings no element of its own into the content. *)
Definition plainAnchors (page : TocPage) : Prop :=
  forall headings, content page = Some headings ->
    Forall (fun h => "034"%char ∉ h_id h) headings.

(** The entries of the observer that intersect. *)
Definition intersecting (entries : list SpyEntry) : list SpyEntry :=
  filter (fun e => isIntersecting e = true) entries.

End Spec.

(* ================================================================== *)
(** * Part IV.  Sample pages                                           *)
(* ================================================================== *)

Module Samples.
Import JS Wiki Spec.

(** ** Catalogs *)

(** The catalog of the specification's example scenario. *)
Definition algebra : PageDescriptor :=
  {| title := str "Algebra Basics"; url := str "a.html";
     desc := None; tags := Some [str "math"] |}.

Definition rome : PageDescriptor :=
  {| title := str "Roman History"; url := str "b.html";
     desc := None; tags := Some [str "history"] |}.

Definition catalog : option (list PageDescriptor) := Some [algebra; rome].

(** A descriptor whose title ends in "ab" and whose description starts with
    "cd". *)
Definition abcd : PageDescriptor :=
  {| title := str "ab"; url := str "p.html"; desc := Some (str "cd"); tags := None |}.

(** Two descriptors that the query "a" matches, one of them titled "A", and
    a descriptor whose title is a single space. *)
Definition lowerA : PageDescriptor :=
  {| title := str "a"; url := str "a.html"; desc := None; tags := None |}.

Definition upperA : PageDescriptor :=
  {| title := str "A"; url := str "A.html"; desc := None; tags := None |}.

Definition spaceTitle : PageDescriptor :=
  {| title := str " "; url := str "s.html"; desc := None; tags := None |}.

(** A descriptor whose address holds double quotes. *)
Definition quoted : PageDescriptor :=
  {| title := str "t";
     url := str "x" ++ dq ++ str " onclick=" ++ dq ++ str "alert(1)";
     desc := None; tags := None |}.

(** ** Articles *)

(** Three headings, two of them with the same text and without anchor; a
    page that holds them and both outline containers, and the same page
    with the first two headings only. *)
Definition threeHeadings : list Heading :=
  [ {| tagName := H2; h_id := []; textContent := str "Intro" |};
    {| tagName := H4; h_id := []; textContent := str "Intro" |};
    {| tagName := H3; h_id := str "given"; textContent := str "Notes [1]" |} ].

Definition longPage : TocPage :=
  {| content := Some threeHeadings; floatingToc := Some []; tocSidebar := Some [] |}.

Definition shortPage : TocPage :=
  {| content := Some (take 2 threeHeadings); floatingToc := Some []; tocSidebar := Some [] |}.

(** Three headings, the last of which carries the anchor that the first is
    about to be given. *)
Definition clashingHeadings : list Heading :=
  [ {| tagName := H2; h_id := []; textContent := str "Intro" |};
    {| tagName := H2; h_id := []; textContent := str "Body" |};
    {| tagName := H3; h_id := str "intro-0"; textContent := str "Notes" |} ].

Definition clashingPage : TocPage :=
  {| content := Some clashingHeadings; floatingToc := None; tocSidebar := Some [] |}.

(** A document with a paragraph and no [#wiki-content], and one with the
    article in a [main#wiki-content]. *)
Definition bareDocument : Document :=
  {| doc_title := str "Untitled";
     body := [Element "p" [] [] [Markup (str "Hello")]] |}.

Definition articleDocument : Document :=
  {| doc_title := str "Untitled";
     body := [Element "main" (str "wiki-content") []
                [Element "h2" [] [] [Markup (str "Intro")]]] |}.

(** ** Embeds *)

(** Two declarative embeds as the manual writes them, without an [iframe]:
    the first with [data-exprs] that does not parse, the second the sine
    curve of the manual. *)
Definition brokenEmbed : Container :=
  {| data_exprs := Unparsable; data_opts := Ok [];
     data_height := None; hasIframe := false |}.

Definition sineEmbed : Container :=
  {| data_exprs := Ok [ExprObject (str "y=\sin(x)") (Some (str "#c74440"))];
     data_opts := Ok []; data_height := None; hasIframe := false |}.

(** ** Sidebar *)

(** The sidebar of the developer pages, [dev/_dev_sidebar.js]. *)
Definition devSidebar : list SidebarSection :=
  [ {| sec_label := str "Dev Reference";
       sec_links :=
         [ {| l_text := str "Dev Index"; l_href := str "index.html" |};
           {| l_text := str "Getting Started"; l_href := str "getting-started.html" |};
           {| l_text := str "Authoring"; l_href := str "authoring.html" |};
           {| l_text := str "wiki.js API"; l_href := str "wiki-js-api.html" |};
           {| l_text := str "CSS Variables"; l_href := str "css-variables.html" |} ] |};
    {| sec_label := str "Components";
       sec_links :=
         [ {| l_text := str "Infobox"; l_href := str "comp-infobox.html" |};
           {| l_text := str "Callouts"; l_href := str "comp-callouts.html" |};
           {| l_text := str "Tables"; l_href := str "comp-tables.html" |};
           {| l_text := str "Tabs"; l_href := str "comp-tabs.html" |};
           {| l_text := str "Collapsible"; l_href := str "comp-collapsible.html" |};
           {| l_text := str "Timeline"; l_href := str "comp-timeline.html" |};
           {| l_text := str "Gallery"; l_href := str "comp-gallery.html" |};
           {| l_text := str "Mathematics"; l_href := str "comp-math.html" |};
           {| l_text := str "Desmos"; l_href := str "comp-desmos.html" |};
           {| l_text := str "Miscellaneous"; l_href := str "comp-misc.html" |} ] |} ].

(** ** Widgets *)

(** A collapsible section as the markup has it, closed and without icon. *)
Definition freshCollapsible : Collapsible :=
  {| hasHeader := true; icons := 0; clickListeners := 0; isOpen := false |}.

(** A link to another site, without icon. *)
Definition katexLink : Anchor :=
  {| a_href := str "https://katex.org"; a_hostname := str "katex.org";
     a_target := None; a_rel := None; hasExtIcon := false; arrows := 0 |}.

End Samples.

(** Proves that one literal string is a case variation of another. *)
Ltac case_variation :=
  unfold Spec.CaseVariation; simpl;
  repeat first
    [ apply List.Forall2_nil
    | apply List.Forall2_cons;
      [ first [ left; reflexivity
              | right; left; reflexivity
              | right; right; reflexivity ] | ] ].

(* ================================================================== *)
(** * Part V.  Facts about the string primitives                      *)
(* ================================================================== *)

Section StringFacts.
Import JS Wiki Spec Samples.

Lemma startsWith_prefix (s q : jsstring) :
  startsWith s q = true <-> q `prefix_of` s.
Proof.
  revert s. induction q as [|c q IH]; intros s; simpl.
  - split; [intros _; apply prefix_nil | done].
  - destruct s as [|d s].
    + split; [done | intros H; by apply prefix_nil_not in H].
    + rewrite andb_true_iff, bool_decide_eq_true, IH. split.
      * intros [-> H]. by apply prefix_cons.
      * intros H. split; [by apply prefix_cons_inv_1 in H | by apply prefix_cons_inv_2 in H].
Qed.

Lemma includes_Substring (s q : jsstring) :
  includes s q = true <-> Substring q s.
Proof.
  unfold Substring. induction s as [|a s IH].
  - simpl. rewrite orb_false_r, startsWith_prefix. split.
    + intros [k Hk]. by exists [], k.
    + intros (pre & post & H). symmetry in H.
      apply app_eq_nil in H as [-> H]. apply app_eq_nil in H as [-> _].
      apply prefix_nil.
  - cbn [includes]. rewrite orb_true_iff, startsWith_prefix, IH. split.
    + intros [[k Hk] | (pre & post & H)].
      * by exists [], k.
      * exists (a :: pre), post. by rewrite H.
    + intros ([|b pre] & post & H).
      * left. by exists post.
      * right. simpl in H. injection H as _ H. by exists pre, post.
Qed.

Lemma toLowerChar_idemp (c : ascii) : toLowerChar (toLowerChar c) = toLowerChar c.
Proof. by destruct c as [[] [] [] [] [] [] [] []]. Qed.

Lemma toLowerChar_upper (c : ascii) : toLowerChar (toUpperChar c) = toLowerChar c.
Proof. by destruct c as [[] [] [] [] [] [] [] []]. Qed.

Lemma caseVariant_lower (a b : ascii) :
  caseVariant a b -> toLowerChar a = toLowerChar b.
Proof.
  intros [-> | [-> | ->]];
    [done | apply toLowerChar_upper | apply toLowerChar_idemp].
Qed.

Lemma CaseVariation_lower (q t : jsstring) :
  CaseVariation q t -> toLowerCase q = toLowerCase t.
Proof.
  induction 1 as [|a b q t Hab _ IH]; [done|].
  unfold toLowerCase in *. simpl. by rewrite (caseVariant_lower _ _ Hab), IH.
Qed.

Lemma toLowerCase_app (s t : jsstring) :
  toLowerCase (s ++ t) = toLowerCase s ++ toLowerCase t.
Proof. apply map_app. Qed.

Lemma dropWhile_all (f : ascii -> bool) (s : jsstring) :
  dropWhile f s = [] <-> Forall (fun c => f c = true) s.
Proof.
  induction s as [|c s IH]; simpl.
  - split; [constructor | done].
  - destruct (f c) eqn:Hc.
    + rewrite IH. split; [by constructor | by inversion 1].
    + split; [done | inversion 1; congruence].
Qed.

Lemma trim_Blank (q : jsstring) : trim q = [] <-> Blank q.
Proof.
  unfold trim, trimEnd, trimStart, dropWhileEnd, Blank. split.
  - intros H. apply (f_equal reverse) in H.
    rewrite reverse_involutive, reverse_nil in H.
    apply dropWhile_all in H.
    apply Forall_reverse in H. rewrite reverse_involutive in H.
    destruct (dropWhile_all isWhiteSpace q) as [Hd _].
    apply Hd. clear Hd.
    induction q as [|c q IH]; [done|]. simpl in *.
    destruct (isWhiteSpace c) eqn:Hc; [by apply IH|].
    inversion H; congruence.
  - intros H. apply dropWhile_all in H. by rewrite H.
Qed.

Lemma dropWhile_suffix (f : ascii -> bool) (s : jsstring) : dropWhile f s `suffix_of` s.
Proof.
  induction s as [|c s IH]; simpl; [done|].
  destruct (f c); [by apply suffix_cons_r | done].
Qed.

Lemma dropWhileEnd_prefix (f : ascii -> bool) (s : jsstring) :
  dropWhileEnd f s `prefix_of` s.
Proof.
  unfold dropWhileEnd. apply prefix_suffix_reverse.
  rewrite reverse_involutive. apply dropWhile_suffix.
Qed.

Lemma dropWhile_head (f : ascii -> bool) (s : jsstring) (c : ascii) (r : jsstring) :
  dropWhile f s = c :: r -> f c = false.
Proof.
  induction s as [|d s IH]; simpl; [done|].
  destruct (f d) eqn:Hd; [done|]. intros H. injection H as <- _. done.
Qed.

Lemma dropWhileEnd_last (f : ascii -> bool) (s : jsstring) (c : ascii) (r : jsstring) :
  dropWhileEnd f s = r ++ [c] -> f c = false.
Proof.
  unfold dropWhileEnd. intros H. apply (f_equal reverse) in H.
  rewrite reverse_involutive, reverse_snoc in H.
  by apply dropWhile_head in H.
Qed.

(** *** The shape of a slug *)

Lemma kept_lower_char (c : ascii) :
  (isWordChar (toLowerChar c) || isWhiteSpace (toLowerChar c) || isHyphen (toLowerChar c)) = true ->
  isSeparator (toLowerChar c) = true \/
  (isSlugChar (toLowerChar c) = true /\ isHyphen (toLowerChar c) = false).
Proof.
  destruct c as [[] [] [] [] [] [] [] []]; vm_compute; intros H;
    first [discriminate H | left; reflexivity | right; split; reflexivity].
Qed.

Lemma separator_hyphen (c : ascii) : isHyphen c = true -> isSeparator c = true.
Proof. unfold isSeparator. intros ->. apply orb_true_r. Qed.

Lemma noDoubleHyphen_cons2 (c d : ascii) (r : jsstring) :
  noDoubleHyphen (c :: d :: r) =
  negb (isHyphen c && isHyphen d) && noDoubleHyphen (d :: r).
Proof. reflexivity. Qed.

Lemma collapseSeparators_shape (s : jsstring) :
  Forall (fun c => isSeparator c = true \/
                   (isSlugChar c = true /\ isHyphen c = false)) s ->
  Forall (fun c => isSlugChar c = true) (collapseSeparators s) /\
  noDoubleHyphen (collapseSeparators s) = true /\
  (forall c r, s = c :: r -> isSeparator c = false ->
     exists r', collapseSeparators s = c :: r').
Proof.
  induction 1 as [|c s Hc Hs (IHchars & IHdouble & IHhead)]; [done|].
  cbn [collapseSeparators].
  destruct (isSeparator c) eqn:Hsep.
  - destruct s as [|d s'].
    { split; [by repeat constructor|]. split; [done|].
      intros ? ? [= -> ->] ?. congruence. }
    destruct (isSeparator d) eqn:Hd.
    + split; [done|]. split; [done|]. intros ? ? [= -> ->] ?. congruence.
    + destruct (IHhead d s' eq_refl Hd) as [r' Hr'].
      repeat split.
      * by constructor.
      * rewrite Hr' in *. rewrite noDoubleHyphen_cons2, IHdouble.
        assert (isHyphen d = false) as ->.
        { destruct (isHyphen d) eqn:E; [|done].
          apply separator_hyphen in E. congruence. }
        by rewrite andb_false_r.
      * intros ? ? [= -> ->] ?. congruence.
  - destruct Hc as [Hc | [Hslug Hhyp]]; [congruence|].
    repeat split.
    + by constructor.
    + destruct (collapseSeparators s) as [|d r'] eqn:E; [done|].
      by rewrite noDoubleHyphen_cons2, Hhyp, IHdouble.
    + intros ? ? [= -> ->] _. by eexists.
Qed.

Lemma noDoubleHyphen_app_l (s t : jsstring) :
  noDoubleHyphen (s ++ t) = true -> noDoubleHyphen s = true.
Proof.
  induction s as [|c [|d s] IH]; [done..|].
  change ((c :: d :: s) ++ t) with (c :: d :: (s ++ t)).
  rewrite !noDoubleHyphen_cons2, !andb_true_iff. intros [? H]. split; [done|].
  by apply IH.
Qed.

Lemma noDoubleHyphen_app_r (s t : jsstring) :
  noDoubleHyphen (s ++ t) = true -> noDoubleHyphen t = true.
Proof.
  induction s as [|c s IH]; [done|]. intros H. apply IH.
  change ((c :: s) ++ t) with (c :: (s ++ t)) in H.
  destruct (s ++ t) as [|d r]; [done|].
  rewrite noDoubleHyphen_cons2 in H. by apply andb_true_iff in H as [_ H].
Qed.

(** A slug is made of lower-case letters, digits and single hyphens, and a
    hyphen neither starts nor ends it. *)
Lemma slugify_shape (text : jsstring) :
  Forall (fun c => isSlugChar c = true) (slugify text) /\
  noDoubleHyphen (slugify text) = true /\
  head (slugify text) <> Some "-"%char /\
  last (slugify text) <> Some "-"%char.
Proof.
  unfold slugify.
  set (kept := List.filter _ (toLowerCase text)).
  assert (Hkept : Forall (fun c => isSeparator c = true \/
                    (isSlugChar c = true /\ isHyphen c = false)) kept).
  { apply Forall_forall. intros c Hc. apply list_elem_of_In in Hc.
    apply List.filter_In in Hc as [Hin Hk].
    apply List.in_map_iff in Hin as (c' & <- & _). by apply kept_lower_char. }
  destruct (collapseSeparators_shape kept Hkept) as (Hchars & Hdouble & _).
  destruct (dropWhile_suffix isHyphen (collapseSeparators kept)) as [k1 Hk1].
  destruct (dropWhileEnd_prefix isHyphen (dropWhile isHyphen (collapseSeparators kept)))
    as [k2 Hk2].
  set (inner := dropWhile isHyphen (collapseSeparators kept)) in *.
  set (slug := dropWhileEnd isHyphen inner) in *.
  rewrite Hk1 in Hchars, Hdouble.
  apply Forall_app in Hchars as [_ Hchars]. apply noDoubleHyphen_app_r in Hdouble.
  rewrite Hk2 in Hchars, Hdouble.
  apply Forall_app in Hchars as [Hchars _]. apply noDoubleHyphen_app_l in Hdouble.
  split; [done|]. split; [done|]. split.
  - destruct slug as [|c r] eqn:E; [done|]. simpl. intros [= ->].
    assert (Hin : inner = "-"%char :: r ++ k2) by (by rewrite Hk2).
    by apply dropWhile_head in Hin.
  - intros Hlast. apply last_Some in Hlast as [r Hr].
    by apply dropWhileEnd_last in Hr.
Qed.

Example slugify_heading :
  slugify (str "  Hello, World! -- foo_bar  ") = str "hello-world-foo-bar".
Proof. reflexivity. Qed.

End StringFacts.

(* ================================================================== *)
(** * Part VI.  Search                                                  *)
(* ================================================================== *)

Section SearchFacts.
Import JS Wiki Spec Samples.

Implicit Types (idx : option (list PageDescriptor)) (q : jsstring).
Implicit Types (p : PageDescriptor).

Lemma runSearch_matches idx q :
  trim q <> [] -> matches (_runSearch idx q) = take 10 (filtered idx q).
Proof.
  intros Hq. unfold _runSearch.
  rewrite bool_decide_eq_false_2 by done. by case_bool_decide.
Qed.

Lemma elem_of_filtered idx q p :
  p ∈ filtered idx q <->
  p ∈ default [] idx /\ Substring (toLowerCase q) (toLowerCase (searchText p)).
Proof.
  unfold filtered, isMatch.
  rewrite list_elem_of_filter, Is_true_true, includes_Substring. tauto.
Qed.

Lemma matches_filtered idx q p :
  trim q <> [] -> p ∈ matches (_runSearch idx q) -> p ∈ filtered idx q.
Proof.
  intros Hq. rewrite (runSearch_matches _ _ Hq). apply subseteq_take.
Qed.

Example search_hist : matches (_runSearch catalog (str "hist")) = [rome].
Proof. reflexivity. Qed.

Example search_MATH : matches (_runSearch catalog (str "MATH")) = [algebra].
Proof. reflexivity. Qed.

Example search_cap :
  length (filtered (Some (replicate 12 lowerA)) (str "A")) = 12 /\
  length (matches (_runSearch (Some (replicate 12 lowerA)) (str "A"))) = 10.
Proof. split; reflexivity. Qed.

Example search_xyz :
  _runSearch catalog (str "xyz") =
  {| matches := []; innerHTML := noResults (str "xyz") |}.
Proof. reflexivity. Qed.











End SearchFacts.

(* ================================================================== *)
(** * Part VII.  Escaping in the search results                         *)
(* ================================================================== *)

Section EscapeFacts.
Import JS Wiki Spec Samples.

(** Induction on strings two bytes at a time, as [escapeHtml] reads them. *)
Lemma jsstring_pair_ind (P : jsstring -> Prop) :
  P [] -> (forall c, P [c]) ->
  (forall c d s, P s -> P (d :: s) -> P (c :: d :: s)) ->
  forall s, P s.
Proof.
  intros Hnil Hone Hstep s.
  cut (P s /\ forall c, P (c :: s)); [tauto|].
  induction s as [|d s [IH1 IH2]]; split; auto.
Qed.

Lemma escapeHtml_cons2 (c d : ascii) (s : jsstring) :
  escapeHtml (c :: d :: s) =
  if bool_decide (c = "194"%char) && bool_decide (d = "160"%char)
  then str "&nbsp;" ++ escapeHtml s
  else escapeChar c ++ escapeHtml (d :: s).
Proof. reflexivity. Qed.

Lemma escapeChar_no_angle (c : ascii) : Forall (fun x => ~ isAngle x) (escapeChar c).
Proof.
  unfold escapeChar, isAngle. repeat case_bool_decide; subst;
    repeat constructor; intros [?|?]; congruence.
Qed.

(** What [escapeHtml] does achieve: its result holds no angle bracket, so
    escaped text opens and closes no tag. *)
Lemma escapeHtml_no_angle (s : jsstring) : Forall (fun x => ~ isAngle x) (escapeHtml s).
Proof.
  induction s as [| c | c d s IH1 IH2] using jsstring_pair_ind.
  - constructor.
  - apply escapeChar_no_angle.
  - rewrite escapeHtml_cons2. destruct (_ && _).
    + apply Forall_app. split; [|done].
      repeat constructor; intros [?|?]; discriminate.
    + apply Forall_app. split; [apply escapeChar_no_angle | done].
Qed.

(** What it does not: a double quote passes through unchanged. *)
Lemma escapeHtml_keeps_quote (s t : jsstring) :
  Forall (fun c => nat_of_ascii c < 128 /\ c <> "&"%char /\ ~ isAngle c) s ->
  escapeHtml (s ++ dq ++ t) = s ++ dq ++ escapeHtml t.
Proof.
  induction 1 as [|c s (Hc & Hamp & Hang) _ IH].
  - destruct t as [|d t]; [done|].
    change ([] ++ dq ++ d :: t) with ("034"%char :: d :: t).
    rewrite escapeHtml_cons2.
    rewrite (bool_decide_eq_false_2 ("034"%char = "194"%char)) by discriminate.
    done.
  - change ((c :: s) ++ dq ++ t) with (c :: (s ++ dq ++ t)).
    destruct (s ++ dq ++ t) as [|d r] eqn:Hr.
    { destruct s; discriminate. }
    rewrite escapeHtml_cons2.
    rewrite (bool_decide_eq_false_2 (c = "194"%char)).
    2:{ intros ->. vm_compute in Hc. lia. }
    cbn [andb]. rewrite IH. unfold escapeChar, isAngle in *.
    repeat case_bool_decide; tauto || done.
Qed.

(** C10, on the code: the address of a row is escaped with [escapeHtml] and
    written between double quotes, but [escapeHtml] leaves double quotes
    alone; the first quote of the address ends the [data-url] attribute and
    the rest of the address is read as a further attribute of the row. *)
Theorem C10_quote_in_url_ends_attribute :
  innerHTML (_runSearch (Some [quoted]) (str "t")) =
  nl ++ indent 6 ++
  str "<div class=" ++ dq ++ str "search-result-item" ++ dq ++
  str " role=" ++ dq ++ str "option" ++ dq ++
  str " tabindex=" ++ dq ++ str "0" ++ dq ++
  str " data-url=" ++ dq ++ str "x" ++ dq ++
  str " onclick=" ++ dq ++ str "alert(1)" ++ dq ++ str ">" ++
  nl ++ indent 8 ++
  str "<div class=" ++ dq ++ str "search-result-title" ++ dq ++ str ">t</div>" ++
  nl ++ indent 8 ++
  nl ++ indent 6 ++ str "</div>".
Proof. reflexivity. Qed.

End EscapeFacts.

(* ================================================================== *)
(** * Part VIII.  Table of contents                                     *)
(* ================================================================== *)

Section NumeralFacts.
Import JS Wiki Spec Samples.

Lemma str_inj (s t : string) : str s = str t -> s = t.
Proof.
  intros H. apply (f_equal String.string_of_list_ascii) in H.
  unfold str in H. by rewrite !String.string_of_list_ascii_of_string in H.
Qed.

Lemma numeral_inj (i j : nat) : numeral i = numeral j -> i = j.
Proof.
  intros H. apply str_inj in H.
  apply (f_equal DecimalString.NilEmpty.uint_of_string) in H.
  rewrite !DecimalString.NilEmpty.usu in H. injection H as H.
  apply (f_equal Nat.of_uint) in H.
  by rewrite !DecimalNat.Unsigned.of_to in H.
Qed.

Lemma string_of_uint_no_hyphen (d : Decimal.uint) :
  "-"%char ∉ str (DecimalString.NilEmpty.string_of_uint d).
Proof.
  induction d; simpl; [apply not_elem_of_nil | ..];
    (apply not_elem_of_cons; split; [discriminate | assumption]).
Qed.

Lemma numeral_no_hyphen (i : nat) : "-"%char ∉ numeral i.
Proof. apply string_of_uint_no_hyphen. Qed.

(** Two strings that end in a hyphen followed by hyphen-free text agree on
    that text. *)
Lemma last_hyphen_suffix (a b u v : jsstring) :
  "-"%char ∉ u -> "-"%char ∉ v ->
  a ++ str "-" ++ u = b ++ str "-" ++ v -> u = v.
Proof.
  intros Hu Hv. revert b.
  induction a as [|x a IH]; intros [|y b] H; simpl in H.
  - by injection H.
  - injection H as _ H. subst u. exfalso. apply Hu.
    apply elem_of_app. right. apply list_elem_of_here.
  - injection H as _ H. subst v. exfalso. apply Hv.
    apply elem_of_app. right. apply list_elem_of_here.
  - injection H as _ H. by apply (IH b).
Qed.

Lemma indexed_slug_inj (a b : jsstring) (i j : nat) :
  a ++ str "-" ++ numeral i = b ++ str "-" ++ numeral j -> i = j.
Proof.
  intros H. apply numeral_inj.
  eapply last_hyphen_suffix; [apply numeral_no_hyphen.. | exact H].
Qed.

End NumeralFacts.

Section TocFacts.
Import JS Wiki Spec Samples.

Implicit Types (items : list TocItem) (html : list Frag) (h : Heading).

Lemma headingLevel_range h : 2 <= headingLevel h <= 4.
Proof. destruct h as [[] ? ?]; vm_compute; lia. Qed.

(** *** The entries of the rendered outlines *)

Lemma entries_app html1 html2 : entries (html1 ++ html2) = entries html1 ++ entries html2.
Proof. apply omap_app. Qed.

Lemma entries_replicate_open n : entries (replicate n OpenList) = [].
Proof. induction n; [done | assumption]. Qed.

Lemma entries_replicate_close n : entries (replicate n CloseList) = [].
Proof. induction n; [done | assumption]. Qed.

Lemma entries_nestedStep html prev item :
  entries (nestedStep (html, prev) item).1 = entries html ++ [item].
Proof.
  unfold nestedStep. cbn [fst].
  repeat case_match;
    rewrite ?entries_app, ?entries_replicate_open, ?entries_replicate_close,
      ?app_nil_r; done.
Qed.

Lemma entries_fold_nestedStep items (st : list Frag * nat) :
  entries (fold_left nestedStep items st).1 = entries st.1 ++ items.
Proof.
  revert st. induction items as [|item items IH]; intros [html prev];
    cbn [fold_left].
  - by rewrite app_nil_r.
  - rewrite IH, entries_nestedStep, <- app_assoc. done.
Qed.

Lemma entries_buildNestedTOC items : entries (_buildNestedTOC items) = items.
Proof.
  unfold _buildNestedTOC, nestedWalk.
  pose proof (entries_fold_nestedStep items ([OpenList], 2)) as H.
  destruct (fold_left nestedStep items ([OpenList], 2)) as [html prev].
  cbn [fst] in H. rewrite entries_app, entries_replicate_close, app_nil_r, H.
  done.
Qed.

Lemma entries_tocHTML items : entries (_tocHTML items) = items.
Proof. unfold _tocHTML. cbn [entries omap]. apply entries_buildNestedTOC. Qed.

Lemma entries_tocSidebarItems items : entries (_tocSidebarItems items) = items.
Proof. induction items as [|it items IH]; [done|]. simpl. by f_equal. Qed.

Lemma entries_tocSidebarHTML items : entries (tocSidebarHTML items) = items.
Proof.
  unfold tocSidebarHTML.
  change (entries (?x :: ?l)) with (entries l).
  rewrite entries_app, entries_tocSidebarItems. apply app_nil_r.
Qed.

(** *** What [buildTOC] does on either side of the threshold *)

Lemma buildTOC_no_content page : content page = None -> buildTOC page = page.
Proof. intros Hc. unfold buildTOC. by rewrite Hc. Qed.

Lemma buildTOC_short page headings :
  content page = Some headings -> length headings < 3 -> buildTOC page = page.
Proof.
  intros Hc Hlen. unfold buildTOC. rewrite Hc.
  destruct (Nat.ltb_spec (length headings) 3); [done | lia].
Qed.

Lemma buildTOC_long page headings :
  content page = Some headings -> 3 <= length headings ->
  buildTOC page =
  {| content := Some (imap assignId headings);
     floatingToc := (fun _ => _tocHTML (map tocItem (imap assignId headings)))
                      <$> floatingToc page;
     tocSidebar := (fun _ => tocSidebarHTML (map tocItem (imap assignId headings)))
                      <$> tocSidebar page |}.
Proof.
  intros Hc Hlen. unfold buildTOC. rewrite Hc.
  destruct (Nat.ltb_spec (length headings) 3); [lia | done].
Qed.

Lemma tocItem_assignId i h :
  item_text (tocItem (assignId i h)) = trim (stripMarkers false (textContent h)) /\
  item_level (tocItem (assignId i h)) = headingLevel h.
Proof. unfold assignId. by case_bool_decide. Qed.

Example longPage_anchors :
  map h_id <$> content (buildTOC longPage) =
  Some [str "intro-0"; str "intro-1"; str "given"].
Proof. reflexivity. Qed.

Example longPage_sidebar_entries :
  map item_text <$> (entries <$> tocSidebar (buildTOC longPage)) =
  Some [str "Intro"; str "Intro"; str "Notes"].
Proof. reflexivity. Qed.



(** *** Anchors *)

Lemma assignId_lacking i h :
  h_id h = [] -> h_id (assignId i h) = slugify (textContent h) ++ str "-" ++ numeral i.
Proof. intros H. unfold assignId. by rewrite bool_decide_eq_true_2. Qed.

Lemma assignId_given i h : h_id h <> [] -> assignId i h = h.
Proof. intros H. unfold assignId. by rewrite bool_decide_eq_false_2. Qed.




End TocFacts.

(** *** The nested list *)

Section NestedFacts.
Import JS Wiki Spec Samples.

Implicit Types (items : list TocItem) (html : list Frag).

Lemma opened_app html1 html2 : opened (html1 ++ html2) = opened html1 + opened html2.
Proof. unfold opened. by rewrite filter_app, length_app. Qed.

Lemma closed_app html1 html2 : closed (html1 ++ html2) = closed html1 + closed html2.
Proof. unfold closed. by rewrite filter_app, length_app. Qed.

Lemma opened_cons f html :
  opened (f :: html) = (if decide (f = OpenList) then 1 else 0) + opened html.
Proof. unfold opened. rewrite filter_cons. by case_decide. Qed.

Lemma closed_cons f html :
  closed (f :: html) = (if decide (f = CloseList) then 1 else 0) + closed html.
Proof. unfold closed. rewrite filter_cons. by case_decide. Qed.

Lemma counts_replicate_open n :
  opened (replicate n OpenList) = n /\ closed (replicate n OpenList) = 0.
Proof.
  induction n as [|n [IHo IHc]]; [done|]. cbn [replicate].
  rewrite opened_cons, closed_cons, IHo, IHc. done.
Qed.

Lemma counts_replicate_close n :
  opened (replicate n CloseList) = 0 /\ closed (replicate n CloseList) = n.
Proof.
  induction n as [|n [IHo IHc]]; [done|]. cbn [replicate].
  rewrite opened_cons, closed_cons, IHo, IHc. done.
Qed.

(** One step of the walk opens [level - prevLevel] levels when the entry is
    deeper, closes [prevLevel - level] levels when it is shallower, and
    remembers the level of the entry. *)
Lemma nestedStep_counts html prev item :
  opened (nestedStep (html, prev) item).1 = opened html + (item_level item - prev) /\
  closed (nestedStep (html, prev) item).1 = closed html + (prev - item_level item) /\
  (nestedStep (html, prev) item).2 = item_level item.
Proof.
  unfold nestedStep. cbn [fst snd].
  destruct (Nat.ltb_spec prev (item_level item)) as [Hlt|Hge];
    [|destruct (Nat.ltb_spec (item_level item) prev) as [Hlt|Hge']];
    rewrite ?opened_app, ?closed_app, !opened_cons, !closed_cons;
    try (destruct (counts_replicate_open (item_level item - prev)) as [-> ->]);
    try (destruct (counts_replicate_close (prev - item_level item)) as [-> ->]);
    repeat case_decide; try congruence;
    unfold opened, closed; simpl; (split; [|split]); lia.
Qed.

Lemma depthFrom_app d html1 html2 :
  depthFrom d (html1 ++ html2) = depthFrom d html1 ≫= fun d' => depthFrom d' html2.
Proof.
  revert d. induction html1 as [|f html1 IH]; intros d; [done|].
  destruct f; simpl; try apply IH. destruct d; [done | apply IH].
Qed.

Lemma depthFrom_replicate_open d n : depthFrom d (replicate n OpenList) = Some (d + n).
Proof.
  revert d. induction n as [|n IH]; intros d; simpl.
  - f_equal. lia.
  - rewrite IH. f_equal. lia.
Qed.

Lemma depthFrom_replicate_close d n :
  n <= d -> depthFrom d (replicate n CloseList) = Some (d - n).
Proof.
  revert d. induction n as [|n IH]; intros d Hn; simpl.
  - f_equal. lia.
  - destruct d as [|d]; [lia|]. rewrite IH by lia. done.
Qed.

(** Markup that can be read to the end opened as many levels, counting those
    open at the start, as it closed, counting those left open. *)
Lemma depthFrom_counts html d d' :
  depthFrom d html = Some d' -> d + opened html = d' + closed html.
Proof.
  revert d. induction html as [|f html IH]; intros d H.
  - injection H as <-. done.
  - rewrite opened_cons, closed_cons.
    destruct f; simpl in H; repeat case_decide; try congruence;
      try (apply IH in H; lia).
    destruct d as [|d]; [discriminate|]. apply IH in H. lia.
Qed.

(** The invariant of the walk: the levels open are one less than the level
    of the last entry. *)
Lemma nestedStep_depth html prev item :
  2 <= prev -> 2 <= item_level item ->
  depthFrom 0 html = Some (prev - 1) ->
  depthFrom 0 (nestedStep (html, prev) item).1 = Some (item_level item - 1).
Proof.
  intros Hprev Hlevel Hd. unfold nestedStep. cbn [fst].
  destruct (Nat.ltb_spec prev (item_level item)) as [Hlt|Hge];
    [|destruct (Nat.ltb_spec (item_level item) prev) as [Hlt|Hge']];
    rewrite !depthFrom_app, Hd; simpl.
  - rewrite depthFrom_replicate_open. simpl. f_equal. lia.
  - rewrite depthFrom_replicate_close by lia. simpl. f_equal. lia.
  - f_equal. lia.
Qed.

Lemma fold_nestedStep_depth items (st : list Frag * nat) :
  Forall (fun it => 2 <= item_level it <= 4) items ->
  2 <= st.2 -> depthFrom 0 st.1 = Some (st.2 - 1) ->
  2 <= (fold_left nestedStep items st).2 /\
  depthFrom 0 (fold_left nestedStep items st).1 =
    Some ((fold_left nestedStep items st).2 - 1).
Proof.
  intros Hitems. revert st.
  induction Hitems as [|item items [Hlo Hhi] _ IH]; intros [html prev] Hprev Hd;
    cbn [fold_left]; [done|].
  cbn [fst snd] in *.
  pose proof (nestedStep_depth html prev item Hprev Hlo Hd) as Hstep.
  pose proof (nestedStep_counts html prev item) as (_ & _ & Hlev).
  apply IH; rewrite Hlev; [lia | exact Hstep].
Qed.



End NestedFacts.

(* ================================================================== *)
(** * Part IX.  Page chrome                                          *)
(* ================================================================== *)

Section TreeFacts.
Import JS Wiki Spec Samples.

Implicit Types (i : jsstring) (n : Node) (forest : list Node).

Lemma countIdIn_app i forest1 forest2 :
  countIdIn i (forest1 ++ forest2) = countIdIn i forest1 + countIdIn i forest2.
Proof. apply sum_list_with_app. Qed.

Lemma firstSome_None {A B} (f : A -> option B) (g : A -> nat) (l : list A) :
  Forall (fun x => f x = None <-> g x = 0) l ->
  firstSome f l = None <-> sum_list_with g l = 0.
Proof.
  induction 1 as [|x l Hx _ IH]; simpl; [done|].
  destruct (f x) eqn:E.
  - split; [done|]. intros Hs. assert (Hg : g x = 0) by lia.
    apply Hx in Hg. congruence.
  - rewrite IH. destruct Hx as [Hx _]. specialize (Hx eq_refl). lia.
Qed.

Lemma rewriteFirst_None {A} (f : A -> option A) (g : A -> nat) (l : list A) :
  Forall (fun x => f x = None <-> g x = 0) l ->
  rewriteFirst f l = None <-> sum_list_with g l = 0.
Proof.
  induction 1 as [|x l Hx _ IH]; simpl; [done|].
  destruct (f x) eqn:E.
  - split; [done|]. intros Hs. assert (Hg : g x = 0) by lia.
    apply Hx in Hg. congruence.
  - destruct Hx as [Hx _]. specialize (Hx eq_refl).
    destruct (rewriteFirst f l) eqn:El; simpl.
    + split; [done|]. intros Hs. assert (Hl : sum_list_with g l = 0) by lia.
      apply IH in Hl. congruence.
    + destruct IH as [IH _]. specialize (IH eq_refl).
      split; [intros _; lia | done].
Qed.

Lemma rewriteFirst_sum {A} (f : A -> option A) (g : A -> nat) (k : nat) (l l' : list A) :
  Forall (fun x => forall x', f x = Some x' -> g x' = g x + k) l ->
  rewriteFirst f l = Some l' ->
  sum_list_with g l' = sum_list_with g l + k.
Proof.
  intros Hall. revert l'.
  induction Hall as [|x l Hx _ IH]; intros l' Hl'; simpl in Hl'; [done|].
  destruct (f x) as [x'|] eqn:E.
  - injection Hl' as <-. simpl. rewrite (Hx x' eq_refl). lia.
  - destruct (rewriteFirst f l) as [l''|]; [|done].
    injection Hl' as <-. simpl. rewrite (IH l'' eq_refl). lia.
Qed.

(** An id is found exactly when some element carries it. *)
Lemma findById_None i n : findById i n = None <-> countId i n = 0.
Proof.
  induction n as [html | tag j attrs children IH] using Node_ind; [done|].
  cbn [findById countId]. case_bool_decide.
  - split; [done | lia].
  - rewrite (firstSome_None _ (countId i)) by exact IH. done.
Qed.

Lemma querySelectorId_None i forest :
  querySelectorId i forest = None <-> countIdIn i forest = 0.
Proof.
  apply firstSome_None, Forall_forall. intros n _. apply findById_None.
Qed.

Lemma querySelectorId_Some i forest :
  countIdIn i forest <> 0 -> exists n, querySelectorId i forest = Some n.
Proof.
  intros H. destruct (querySelectorId i forest) as [n|] eqn:E; [by exists n|].
  by apply querySelectorId_None in E.
Qed.

End TreeFacts.

Section LayoutFacts.
Import JS Wiki Spec Samples.

(** The markup of the templates, the title of the page and of the site:
    whatever they are. *)
Variables (hH fH sH : jsstring) (pt : option jsstring) (st : jsstring).

Implicit Types (i : jsstring) (n : Node) (forest : list Node) (d : Document).

Local Abbreviation hdr := (str "wiki-header").
Local Abbreviation ftr := (str "wiki-footer").
Local Abbreviation lay := (str "wiki-layout").
Local Abbreviation cnt := (str "wiki-content").

Lemma countId_layoutAround i n :
  countId i (layoutAround sH n) = countId i n + chromeIds i.
Proof.
  unfold chromeIds, layoutAround, sidebarEl, tocSidebarEl.
  cbn [countId sum_list_with]. lia.
Qed.

Lemma wrapContent_count i n n' :
  wrapContent sH n = Some n' -> countId i n' = countId i n + chromeIds i.
Proof.
  revert n'.
  induction n as [html | tag j attrs children IH] using Node_ind;
    intros n' Hn'; [done|].
  cbn [wrapContent] in Hn'. case_bool_decide.
  - injection Hn' as <-. apply countId_layoutAround.
  - destruct (rewriteFirst (wrapContent sH) children) as [children'|] eqn:E;
      [|done].
    injection Hn' as <-. cbn [countId].
    rewrite (rewriteFirst_sum _ (countId i) (chromeIds i) _ _ IH E). lia.
Qed.

Lemma wrapContent_None n : wrapContent sH n = None <-> countId cnt n = 0.
Proof.
  induction n as [html | tag j attrs children IH] using Node_ind; [done|].
  cbn [wrapContent countId]. case_bool_decide.
  - split; [done | lia].
  - pose proof (rewriteFirst_None _ (countId cnt) _ IH) as Hr.
    destruct (rewriteFirst (wrapContent sH) children) as [l|].
    + split; [intros Habs; discriminate Habs|].
      intros H0. apply Hr in H0. discriminate H0.
    + destruct Hr as [Hr _]. specialize (Hr eq_refl).
      split; [intros _; exact Hr | reflexivity].
Qed.

Lemma wrapForest_count i forest forest' :
  rewriteFirst (wrapContent sH) forest = Some forest' ->
  countIdIn i forest' = countIdIn i forest + chromeIds i.
Proof.
  apply rewriteFirst_sum, Forall_forall. intros n _ n'. apply wrapContent_count.
Qed.

Lemma wrapForest_None forest :
  rewriteFirst (wrapContent sH) forest = None <-> countIdIn cnt forest = 0.
Proof.
  apply rewriteFirst_None, Forall_forall. intros n _. apply wrapContent_None.
Qed.

(** The ids [buildLayout] asks for, before and after each step. *)
Lemma ensureHeader_counts forest :
  countIdIn hdr (ensureHeader hH forest) = Nat.max 1 (countIdIn hdr forest) /\
  countIdIn ftr (ensureHeader hH forest) = countIdIn ftr forest /\
  countIdIn lay (ensureHeader hH forest) = countIdIn lay forest /\
  countIdIn cnt (ensureHeader hH forest) = countIdIn cnt forest.
Proof.
  unfold ensureHeader.
  destruct (querySelectorId hdr forest) as [n|] eqn:E.
  - assert (countIdIn hdr forest <> 0).
    { intros H0. apply querySelectorId_None in H0. congruence. }
    repeat split; lia.
  - apply querySelectorId_None in E. unfold countIdIn in *.
    cbn [sum_list_with]. rewrite E. repeat split; reflexivity.
Qed.

Lemma ensureFooter_counts forest :
  countIdIn hdr (ensureFooter fH forest) = countIdIn hdr forest /\
  countIdIn ftr (ensureFooter fH forest) = Nat.max 1 (countIdIn ftr forest) /\
  countIdIn lay (ensureFooter fH forest) = countIdIn lay forest /\
  countIdIn cnt (ensureFooter fH forest) = countIdIn cnt forest.
Proof.
  unfold ensureFooter.
  destruct (querySelectorId ftr forest) as [n|] eqn:E.
  - assert (countIdIn ftr forest <> 0).
    { intros H0. apply querySelectorId_None in H0. congruence. }
    repeat split; lia.
  - apply querySelectorId_None in E. rewrite !countIdIn_app, E.
    change (countIdIn hdr [footerEl fH]) with 0.
    change (countIdIn ftr [footerEl fH]) with 1.
    change (countIdIn lay [footerEl fH]) with 0.
    change (countIdIn cnt [footerEl fH]) with 0.
    repeat split; lia.
Qed.

Lemma ensureHeader_present forest :
  countIdIn hdr forest <> 0 -> ensureHeader hH forest = forest.
Proof.
  intros H. unfold ensureHeader.
  by destruct (querySelectorId_Some _ _ H) as [n ->].
Qed.

Lemma ensureFooter_present forest :
  countIdIn ftr forest <> 0 -> ensureFooter fH forest = forest.
Proof.
  intros H. unfold ensureFooter.
  by destruct (querySelectorId_Some _ _ H) as [n ->].
Qed.

Lemma updateTitle_body d : body (updateTitle pt st d) = body d.
Proof. unfold updateTitle. by destruct pt as [[|c t]|]. Qed.

Lemma updateTitle_idemp d :
  updateTitle pt st (updateTitle pt st d) = updateTitle pt st d.
Proof. unfold updateTitle. by destruct pt as [[|c t]|]. Qed.

(** The three ways a call of [buildLayout] can go. *)
Lemma buildLayout_cases d :
  let b2 := ensureFooter fH (ensureHeader hH (body d)) in
  (countIdIn lay b2 <> 0 /\
   buildLayout hH fH sH pt st d =
     updateTitle pt st {| doc_title := doc_title d; body := b2 |}) \/
  (countIdIn lay b2 = 0 /\ countIdIn cnt b2 = 0 /\
   buildLayout hH fH sH pt st d = {| doc_title := doc_title d; body := b2 |}) \/
  (countIdIn lay b2 = 0 /\ countIdIn cnt b2 <> 0 /\
   exists b3, rewriteFirst (wrapContent sH) b2 = Some b3 /\
     buildLayout hH fH sH pt st d =
       updateTitle pt st {| doc_title := doc_title d; body := b3 |}).
Proof.
  intros b2. unfold buildLayout. fold b2.
  destruct (querySelectorId lay b2) as [n|] eqn:El.
  - left. split; [|done]. intros H0. apply querySelectorId_None in H0. congruence.
  - right. apply querySelectorId_None in El.
    destruct (querySelectorId cnt b2) as [n|] eqn:Ec.
    + right. assert (Hc : countIdIn cnt b2 <> 0).
      { intros H0. apply querySelectorId_None in H0. congruence. }
      split; [done|]. split; [done|].
      destruct (rewriteFirst (wrapContent sH) b2) as [b3|] eqn:Ew.
      * by exists b3.
      * apply wrapForest_None in Ew. done.
    + left. apply querySelectorId_None in Ec. done.
Qed.

(** Once header and footer are there, and the layout is there or there is
    nothing to wrap, a call changes at most the title. *)
Lemma buildLayout_settled d :
  countIdIn hdr (body d) <> 0 -> countIdIn ftr (body d) <> 0 ->
  (countIdIn lay (body d) <> 0 ->
   buildLayout hH fH sH pt st d = updateTitle pt st d) /\
  (countIdIn lay (body d) = 0 -> countIdIn cnt (body d) = 0 ->
   buildLayout hH fH sH pt st d = d).
Proof.
  intros Hh Hf. unfold buildLayout.
  rewrite (ensureHeader_present _ Hh), (ensureFooter_present _ Hf).
  destruct d as [t b]. cbn [body doc_title] in *. split.
  - intros Hl. by destruct (querySelectorId_Some _ _ Hl) as [n ->].
  - intros Hl Hc.
    apply querySelectorId_None in Hl. apply querySelectorId_None in Hc.
    by rewrite Hl, Hc.
Qed.

End LayoutFacts.

Section LayoutIdempotence.
Import JS Wiki Spec Samples.

Variables (hH fH sH : jsstring) (pt : option jsstring) (st : jsstring).

Local Abbreviation hdr := (str "wiki-header").
Local Abbreviation ftr := (str "wiki-footer").
Local Abbreviation lay := (str "wiki-layout").
Local Abbreviation cnt := (str "wiki-content").

Example articleDocument_chrome :
  let twice := buildLayout hH fH sH pt st (buildLayout hH fH sH pt st articleDocument) in
  countIdIn hdr (body twice) = 1 /\ countIdIn ftr (body twice) = 1 /\
  countIdIn lay (body twice) = 1.
Proof. destruct pt as [[|c t]|]; repeat split; reflexivity. Qed.

(** C8, as stated, fails: on a document without [#wiki-content] two calls
    leave one header, one footer and no layout wrapper. *)
Lemma C8_no_wrapper_without_content :
  let twice := buildLayout [] [] [] None [] (buildLayout [] [] [] None [] bareDocument) in
  countIdIn hdr (body twice) = 1 /\ countIdIn ftr (body twice) = 1 /\
  countIdIn lay (body twice) = 0.
Proof. repeat split; reflexivity. Qed.

(** C8, amended: a second call changes nothing.  After the calls the
    document has the headers and footers it had, or one where it had none;
    it has the layout wrappers it had, or, where it had none, one if it
    holds a [#wiki-content] and none if it does not. *)
Theorem C8_buildLayout_idempotent (d : Document) :
  let once := buildLayout hH fH sH pt st d in
  let twice := buildLayout hH fH sH pt st once in
  twice = once /\
  countIdIn hdr (body twice) = Nat.max 1 (countIdIn hdr (body d)) /\
  countIdIn ftr (body twice) = Nat.max 1 (countIdIn ftr (body d)) /\
  countIdIn lay (body twice) =
    match countIdIn lay (body d) with
    | 0 => if decide (countIdIn cnt (body d) = 0) then 0 else 1
    | S k => S k
    end.
Proof.
  intros once twice.
  destruct (ensureHeader_counts hH (body d)) as (Hh1 & Hf1 & Hl1 & Hc1).
  destruct (ensureFooter_counts fH (ensureHeader hH (body d)))
    as (Hh2 & Hf2 & Hl2 & Hc2).
  rewrite Hh1 in Hh2. rewrite Hf1 in Hf2. rewrite Hl1 in Hl2. rewrite Hc1 in Hc2.
  assert (Hfix : twice = once /\
            countIdIn hdr (body once) = Nat.max 1 (countIdIn hdr (body d)) /\
            countIdIn ftr (body once) = Nat.max 1 (countIdIn ftr (body d)) /\
            countIdIn lay (body once) =
              match countIdIn lay (body d) with
              | 0 => if decide (countIdIn cnt (body d) = 0) then 0 else 1
              | S k => S k
              end).
  { subst twice.
    destruct (buildLayout_cases hH fH sH pt st d)
      as [(Hl & Hb) | [(Hl & Hc & Hb) | (Hl & Hc & b3 & Hw & Hb)]];
      fold once in Hb.
    - assert (Hbody : body once = ensureFooter fH (ensureHeader hH (body d)))
        by (rewrite Hb; apply updateTitle_body).
      destruct (buildLayout_settled hH fH sH pt st once) as [Hs _];
        [rewrite Hbody; lia .. |].
      rewrite Hs by (rewrite Hbody; exact Hl).
      split; [rewrite Hb; apply updateTitle_idemp|].
      rewrite Hbody, Hh2, Hf2, Hl2. rewrite Hl2 in Hl.
      destruct (countIdIn lay (body d)); [done | repeat split].
    - assert (Hbody : body once = ensureFooter fH (ensureHeader hH (body d)))
        by (by rewrite Hb).
      destruct (buildLayout_settled hH fH sH pt st once) as [_ Hs];
        [rewrite Hbody; lia .. |].
      rewrite Hs by (rewrite Hbody; assumption).
      split; [done|].
      rewrite Hbody, Hh2, Hf2, Hl2. rewrite Hl2 in Hl. rewrite Hc2 in Hc.
      rewrite Hl. by rewrite decide_True.
    - assert (Hbody : body once = b3) by (rewrite Hb; apply updateTitle_body).
      pose proof (wrapForest_count sH hdr _ _ Hw) as Wh.
      pose proof (wrapForest_count sH ftr _ _ Hw) as Wf.
      pose proof (wrapForest_count sH lay _ _ Hw) as Wl.
      change (chromeIds hdr) with 0 in Wh. change (chromeIds ftr) with 0 in Wf.
      change (chromeIds lay) with 1 in Wl.
      destruct (buildLayout_settled hH fH sH pt st once) as [Hs _];
        [rewrite Hbody; lia .. |].
      rewrite Hs by (rewrite Hbody; lia).
      split; [rewrite Hb; apply updateTitle_idemp|].
      rewrite Hbody, Wh, Wf, Wl, Hh2, Hf2, Hl. rewrite Hl2 in Hl. rewrite Hc2 in Hc.
      rewrite Hl. rewrite decide_False by done. repeat split; lia. }
  destruct Hfix as (Heq & Hrest). rewrite Heq. by split.
Qed.

End LayoutIdempotence.

(* ================================================================== *)
(** * Part X.  Graph embeds                                           *)
(* ================================================================== *)

Section DesmosFacts.
Import JS Wiki Spec Samples.

Lemma bind_normal {A B} (m : M A) (k : A -> M B) (a : A) (tr tr' : list Event) :
  m tr = (Normal a, tr') -> (m ≫= k) tr = k a tr'.
Proof. intros H. unfold mbind, M_bind. by rewrite H. Qed.

(** An exception ends every loop it is thrown in. *)
Lemma bind_thrown {A B} (m : M A) (k : A -> M B) (e : Exn) (tr tr' : list Event) :
  m tr = (Thrown e, tr') -> (m ≫= k) tr = (Thrown e, tr').
Proof. intros H. unfold mbind, M_bind. by rewrite H. Qed.

Lemma forEachFrom_thrown {A} (f : A -> nat -> M unit) (x : A) (l : list A)
    (k : nat) (e : Exn) (tr tr' : list Event) :
  f x k tr = (Thrown e, tr') -> forEachFrom k f (x :: l) tr = (Thrown e, tr').
Proof. intros H. cbn [forEachFrom]. by apply bind_thrown. Qed.

(** In [wikiInitAllDesmos] an embed that does not parse ends the call where
    it stands, whatever comes after it. *)
Lemma wikiInitAllDesmos_unparsable_first (desmos : bool) (el : Container)
    (rest : list Container) (tr : list Event) :
  data_exprs el = Unparsable ->
  wikiInitAllDesmos desmos (el :: rest) tr = (Thrown SyntaxError, tr).
Proof.
  intros H. unfold wikiInitAllDesmos, forEach.
  apply forEachFrom_thrown. by rewrite H.
Qed.

(** A loop whose body appends events and returns, appends the events of
    all rounds and returns. *)
Lemma forEachFrom_trace {A} (f : A -> nat -> M unit) (g : A -> nat -> list Event) :
  (forall x i tr, f x i tr = (Normal (), tr ++ g x i)) ->
  forall l k tr,
    forEachFrom k f l tr = (Normal (), tr ++ concat (imap (fun j x => g x (k + j)) l)).
Proof.
  intros Hf l. induction l as [|x l IH]; intros k tr.
  - simpl. by rewrite app_nil_r.
  - cbn [forEachFrom]. rewrite (bind_normal _ _ _ _ _ (Hf x k tr)), IH.
    rewrite imap_cons. cbn [concat]. rewrite Nat.add_0_r, <- app_assoc.
    rewrite (imap_ext (fun j y => g y (S k + j)) ((fun j y => g y (k + j)) ∘ S) l);
      [done|].
    intros j y _. simpl. f_equal. lia.
Qed.

Lemma concat_imap_singleton {A B} (f : nat -> A -> B) (l : list A) :
  concat (imap (fun j x => [f j x]) l) = imap f l.
Proof.
  revert f. induction l as [|x l IH]; intros f; [done|].
  rewrite !imap_cons. cbn [concat app]. f_equal. apply (IH (f ∘ S)).
Qed.

Lemma setExpression_trace (at_ : Mount) (expr : ExprSpec) (j : nat) (tr : list Event) :
  setExpression at_ expr j tr = (Normal (), tr ++ [expressionEvent at_ expr j]).
Proof. by destruct expr. Qed.

(** [initDesmosEmbeds] keeps a failure inside the embed it comes from: the
    call returns, and its trace is made of what each container contributes
    on its own. *)
Lemma initDesmosEmbeds_isolates (containers : list Container) (tr : list Event) :
  initDesmosEmbeds true containers tr =
  (Normal (), tr ++ concat (imap (fun i c => embedEvents c i) containers)).
Proof.
  unfold initDesmosEmbeds, forEach. cbn [negb].
  rewrite (forEachFrom_trace _ embedEvents); [done|].
  clear. intros c i tr. unfold embedEvents.
  destruct (hasIframe c); cbn [negb]; [|by rewrite app_nil_r].
  unfold tryCatch.
  destruct (data_exprs c) as [exprs|]; [|done].
  destruct (data_opts c) as [opts|]; [|done].
  cbn [JSON_parse].
  unfold mbind, M_bind, mret, M_ret, emit, forEach.
  rewrite (forEachFrom_trace _ (fun expr j => [expressionEvent (OnIframe i) expr j]))
    by (intros; apply setExpression_trace).
  rewrite concat_imap_singleton, <- !app_assoc. done.
Qed.

(** C9, on the code: [wikiInitAllDesmos] parses outside any [try].  On a
    page whose first embed does not parse the exception leaves the loop and
    the function: nothing is logged and the embed after it, which alone is
    initialised, is never reached. *)
Theorem C9_wikiInitAllDesmos_aborts :
  wikiInitAllDesmos true [brokenEmbed; sineEmbed] [] = (Thrown SyntaxError, []) /\
  wikiInitAllDesmos true [sineEmbed] [] =
    (Normal (),
     [ HeightSet 0 (str "400px"); Cleared 0; Created (OnContainer 0) [];
       ExpressionSet (OnContainer 0) (str "e0") (str "y=\sin(x)") (Some (str "#c74440")) ]).
Proof. split; reflexivity. Qed.

End DesmosFacts.

(* ================================================================== *)
(** * Part XI.  Further properties of the helpers                      *)
(* ================================================================== *)

Section SlugFacts.
Import JS Wiki Spec Samples.

Lemma slugChar_facts (c : ascii) :
  isSlugChar c = true ->
  toLowerChar c = c /\
  (isWordChar c || isWhiteSpace c || isHyphen c) = true /\
  isSeparator c = isHyphen c.
Proof.
  destruct c as [[] [] [] [] [] [] [] []]; vm_compute; intros H;
    first [discriminate H | repeat split; reflexivity].
Qed.

Lemma filter_all (f : ascii -> bool) (s : jsstring) :
  Forall (fun c => f c = true) s -> List.filter f s = s.
Proof. induction 1 as [|c s Hc _ IH]; [done|]. simpl. by rewrite Hc, IH. Qed.

Lemma noDoubleHyphen_tail (c : ascii) (s : jsstring) :
  noDoubleHyphen (c :: s) = true -> noDoubleHyphen s = true.
Proof.
  destruct s as [|d s]; [done|]. rewrite noDoubleHyphen_cons2.
  by intros [_ H]%andb_true_iff.
Qed.

Lemma collapseSeparators_slug (u : jsstring) :
  Forall (fun c => isSlugChar c = true) u ->
  noDoubleHyphen u = true -> last u <> Some "-"%char ->
  collapseSeparators u = u.
Proof.
  induction 1 as [|c u Hc Hu IH]; intros Hdouble Hlast; [done|].
  destruct (slugChar_facts c Hc) as (_ & _ & Hsep).
  assert (IHu : collapseSeparators u = u).
  { apply IH; [by apply noDoubleHyphen_tail in Hdouble|].
    destruct u as [|d u']; [done | exact Hlast]. }
  cbn [collapseSeparators]. rewrite Hsep.
  destruct (isHyphen c) eqn:Hhyp; [|by rewrite IHu].
  apply bool_decide_eq_true in Hhyp as ->.
  destruct u as [|d u']; [done|].
  rewrite noDoubleHyphen_cons2 in Hdouble.
  apply andb_true_iff in Hdouble as [Hcd _].
  inversion Hu as [|? ? Hd _]; subst.
  destruct (slugChar_facts d Hd) as (_ & _ & ->).
  change (isHyphen "-"%char) with true in Hcd.
  destruct (isHyphen d); [done | by rewrite IHu].
Qed.



End SlugFacts.

Section EscapeRoundTrip.
Import JS Wiki Spec Samples.

Lemma unescapeFrom_escapeChar (c : ascii) (r : jsstring) :
  unescapeFrom 0 (escapeChar c ++ r) = c :: unescapeFrom 0 r.
Proof.
  unfold escapeChar. repeat case_bool_decide; subst; try reflexivity.
  cbn [app unescapeFrom startsWith str String.list_ascii_of_string].
  rewrite (bool_decide_eq_false_2 ("&"%char = c)) by congruence. done.
Qed.

Lemma unescapeHtml_escapeHtml (s : jsstring) : unescapeHtml (escapeHtml s) = s.
Proof.
  unfold unescapeHtml.
  induction s as [| c | c d s IH1 IH2] using jsstring_pair_ind.
  - done.
  - change (escapeHtml [c]) with (escapeChar c).
    rewrite <- (app_nil_r (escapeChar c)). by rewrite unescapeFrom_escapeChar.
  - rewrite escapeHtml_cons2.
    destruct (bool_decide (c = "194"%char) && bool_decide (d = "160"%char)) eqn:E.
    + apply andb_true_iff in E as [Hc Hd].
      apply bool_decide_eq_true in Hc as ->. apply bool_decide_eq_true in Hd as ->.
      change (unescapeFrom 0 (str "&nbsp;" ++ escapeHtml s))
        with ("194"%char :: "160"%char :: unescapeFrom 0 (escapeHtml s)).
      by rewrite IH1.
    + by rewrite unescapeFrom_escapeChar, IH2.
Qed.

(** X3: [escapeHtml] loses nothing: reading the four entities back gives
    the text that was escaped, so two different texts are never escaped to
    the same markup. *)
Theorem X3_escapeHtml_round_trip (s : jsstring) :
  unescapeHtml (escapeHtml s) = s /\
  forall t, escapeHtml s = escapeHtml t -> s = t.
Proof.
  split; [apply unescapeHtml_escapeHtml|].
  intros t H. apply (f_equal unescapeHtml) in H.
  by rewrite !unescapeHtml_escapeHtml in H.
Qed.

Lemma escapeHtml_plain (s : jsstring) :
  Forall (fun c => nat_of_ascii c < 128 /\ c <> "&"%char /\ ~ isAngle c) s ->
  escapeHtml s = s.
Proof.
  induction s as [| c | c d s IH1 IH2] using jsstring_pair_ind; intros H.
  - done.
  - inversion H as [|? ? (_ & Hamp & Hang) _]; subst.
    change (escapeHtml [c]) with (escapeChar c).
    unfold escapeChar, isAngle in *. repeat case_bool_decide; tauto || done.
  - inversion H as [|? ? (Hc & Hamp & Hang) Hrest]; subst.
    rewrite escapeHtml_cons2, (bool_decide_eq_false_2 (c = "194"%char)).
    2:{ intros ->. vm_compute in Hc. lia. }
    cbn [andb]. rewrite (IH2 Hrest).
    unfold escapeChar, isAngle in *. repeat case_bool_decide; tauto || done.
Qed.

(** X4: escaped text holds no angle bracket, whatever the text; and an ASCII
    text without ampersand and angle bracket, double quotes included, is
    written as it is. *)
Theorem X4_escapeHtml_text_safe_quotes_kept (s : jsstring) :
  Forall (fun c => ~ isAngle c) (escapeHtml s) /\
  (Forall (fun c => nat_of_ascii c < 128 /\ c <> "&"%char /\ ~ isAngle c) s ->
   escapeHtml s = s).
Proof. split; [apply escapeHtml_no_angle | apply escapeHtml_plain]. Qed.

Lemma X4_escapeHtml_text_safe_quotes_kept_witness :
  Forall (fun c => nat_of_ascii c < 128 /\ c <> "&"%char /\ ~ isAngle c)
    (str "a" ++ dq ++ str "b") /\
  escapeHtml (str "a" ++ dq ++ str "b") = str "a" ++ dq ++ str "b".
Proof.
  assert (H : Forall (fun c => nat_of_ascii c < 128 /\ c <> "&"%char /\ ~ isAngle c)
                (str "a" ++ dq ++ str "b")).
  { repeat (apply List.Forall_cons;
            [split; [vm_compute; lia |
                     split; [discriminate | intros [E|E]; discriminate E]]|]).
    apply List.Forall_nil. }
  split; [exact H|].
  exact (proj2 (X4_escapeHtml_text_safe_quotes_kept (str "a" ++ dq ++ str "b")) H).
Defined.

End EscapeRoundTrip.

Section MarkerFacts.
Import JS Wiki Spec Samples.

Lemma closesOnLine_stripMarkers (s : jsstring) :
  closesOnLine s = false -> closesOnLine (stripMarkers false s) = false.
Proof.
  induction s as [|c s IH]; [done|]. cbn [closesOnLine stripMarkers].
  case_bool_decide as Hc; [done|].
  destruct (isLineTerminator c) eqn:Hlt.
  - intros _. destruct (bool_decide (c = "["%char) && closesOnLine s) eqn:E.
    + apply andb_true_iff in E as [E _].
      apply bool_decide_eq_true in E as ->. discriminate Hlt.
    + cbn [closesOnLine]. by rewrite bool_decide_eq_false_2, Hlt.
  - intros Hs. rewrite Hs, andb_false_r. cbn [closesOnLine].
    rewrite bool_decide_eq_false_2, Hlt by done. by apply IH.
Qed.

Lemma hasMarker_stripMarkers (inside : bool) (s : jsstring) :
  hasMarker (stripMarkers inside s) = false.
Proof.
  revert inside. induction s as [|c s IH]; intros inside; [by destruct inside|].
  cbn [stripMarkers]. destruct inside; [apply IH|].
  destruct (bool_decide (c = "["%char) && closesOnLine s) eqn:E; [apply IH|].
  cbn [hasMarker]. rewrite IH, orb_false_r.
  apply andb_false_iff in E as [E|E]; [by rewrite E|].
  by rewrite (closesOnLine_stripMarkers s E), andb_false_r.
Qed.

Lemma stripMarkers_no_marker (s : jsstring) :
  hasMarker s = false -> stripMarkers false s = s.
Proof.
  induction s as [|c s IH]; [done|]. cbn [hasMarker stripMarkers].
  intros [-> Hs]%orb_false_iff. by rewrite IH.
Qed.


End MarkerFacts.

(* ================================================================== *)
(** * Part XII.  Further properties of the search                      *)
(* ================================================================== *)

Section SearchMore.
Import JS Wiki Spec Samples.

Implicit Types (idx : option (list PageDescriptor)) (q : jsstring).

Lemma isWhiteSpace_upper (c : ascii) : isWhiteSpace (toUpperChar c) = isWhiteSpace c.
Proof. by destruct c as [[] [] [] [] [] [] [] []]. Qed.

Lemma isWhiteSpace_lower (c : ascii) : isWhiteSpace (toLowerChar c) = isWhiteSpace c.
Proof. by destruct c as [[] [] [] [] [] [] [] []]. Qed.

Lemma CaseVariation_Blank q q' : CaseVariation q q' -> Blank q <-> Blank q'.
Proof.
  unfold Blank. induction 1 as [|a b q q' Hab _ IH]; [done|].
  rewrite !Forall_cons, IH.
  assert (isWhiteSpace a = isWhiteSpace b) as ->; [|done].
  destruct Hab as [-> | [-> | ->]];
    [done | apply isWhiteSpace_upper | apply isWhiteSpace_lower].
Qed.



Lemma Substring_lower q q' :
  Substring q q' -> Substring (toLowerCase q) (toLowerCase q').
Proof.
  intros (pre & post & ->). exists (toLowerCase pre), (toLowerCase post).
  by rewrite !toLowerCase_app.
Qed.

Lemma Substring_trans (a b c : jsstring) :
  Substring a b -> Substring b c -> Substring a c.
Proof.
  intros (p1 & s1 & ->) (p2 & s2 & ->). exists (p2 ++ p1), (s1 ++ s2).
  by rewrite <- !app_assoc.
Qed.

Lemma filter_sublist_impl {A} (P Q : A -> Prop)
    `{!forall x, Decision (P x)} `{!forall x, Decision (Q x)} (l : list A) :
  (forall x, P x -> Q x) -> filter P l `sublist_of` filter Q l.
Proof.
  intros HPQ. induction l as [|x l IH]; [done|].
  rewrite !filter_cons. destruct (decide (P x)) as [HP|HP].
  - rewrite decide_True by auto. by apply sublist_skip.
  - destruct (decide (Q x)); [by apply sublist_cons | done].
Qed.



End SearchMore.

(* ================================================================== *)
(** * Part XIII.  Further properties of the table of contents          *)
(* ================================================================== *)

Section TocMore.
Import JS Wiki Spec Samples.

Implicit Types (items : list TocItem) (html : list Frag) (h : Heading).

Lemma assignId_nonempty i h : h_id (assignId i h) <> [].
Proof.
  unfold assignId. case_bool_decide as E; [|done]. simpl.
  intros H. apply (f_equal length) in H.
  rewrite !length_app in H. simpl in H. lia.
Qed.

Lemma imap_assignId_settled (f : nat -> nat) (headings : list Heading) :
  imap (fun i => assignId (f i)) (imap assignId headings) = imap assignId headings.
Proof.
  apply list_eq. intros i.
  rewrite !list_lookup_imap. destruct (headings !! i) as [h|]; [|done].
  simpl. f_equal. apply assignId_given, assignId_nonempty.
Qed.





Lemma entryDepths_app d d' html1 html2 :
  depthFrom d html1 = Some d' ->
  entryDepths d (html1 ++ html2) = entryDepths d html1 ++ entryDepths d' html2.
Proof.
  revert d. induction html1 as [|f html1 IH]; intros d H.
  - injection H as <-. done.
  - destruct f; simpl in *; try (by rewrite (IH _ H)).
    destruct d as [|d0]; [done|]. exact (IH _ H).
Qed.

Lemma entryDepths_replicate_open d n : entryDepths d (replicate n OpenList) = [].
Proof. revert d. induction n as [|n IH]; intros d; [done | apply IH]. Qed.

Lemma entryDepths_replicate_close d n : entryDepths d (replicate n CloseList) = [].
Proof. revert d. induction n as [|n IH]; intros d; [done | apply IH]. Qed.

Lemma entryDepths_nestedStep html prev item :
  2 <= prev -> 2 <= item_level item ->
  depthFrom 0 html = Some (prev - 1) ->
  entryDepths 0 (nestedStep (html, prev) item).1 =
  entryDepths 0 html ++ [(item, item_level item - 1)].
Proof.
  intros Hprev Hlevel Hd. unfold nestedStep. cbn [fst].
  destruct (Nat.ltb_spec prev (item_level item)) as [Hlt|Hge];
    [|destruct (Nat.ltb_spec (item_level item) prev) as [Hlt|Hge']].
  - rewrite (entryDepths_app 0 (item_level item - 1)).
    2:{ rewrite depthFrom_app, Hd. simpl. rewrite depthFrom_replicate_open.
        f_equal. lia. }
    rewrite (entryDepths_app 0 (prev - 1)) by done.
    by rewrite entryDepths_replicate_open, app_nil_r.
  - rewrite (entryDepths_app 0 (item_level item - 1)).
    2:{ rewrite depthFrom_app, Hd. simpl. rewrite depthFrom_replicate_close by lia.
        f_equal. lia. }
    rewrite (entryDepths_app 0 (prev - 1)) by done.
    by rewrite entryDepths_replicate_close, app_nil_r.
  - rewrite (entryDepths_app 0 (prev - 1)) by done.
    simpl. do 3 f_equal. lia.
Qed.

Lemma entryDepths_fold items (st : list Frag * nat) :
  Forall (fun it => 2 <= item_level it) items ->
  2 <= st.2 -> depthFrom 0 st.1 = Some (st.2 - 1) ->
  entryDepths 0 (fold_left nestedStep items st).1 =
  entryDepths 0 st.1 ++ map (fun it => (it, item_level it - 1)) items /\
  exists d, depthFrom 0 (fold_left nestedStep items st).1 = Some d.
Proof.
  intros Hitems. revert st.
  induction Hitems as [|item items Hlevel _ IH]; intros [html prev] Hprev Hd;
    cbn [fold_left fst snd] in *.
  - rewrite app_nil_r. eauto.
  - pose proof (entryDepths_nestedStep html prev item Hprev Hlevel Hd) as Hstep.
    pose proof (nestedStep_depth html prev item Hprev Hlevel Hd) as Hdepth.
    pose proof (nestedStep_counts html prev item) as (_ & _ & Hlev).
    destruct (IH (nestedStep (html, prev) item)) as [IHe IHd];
      [rewrite Hlev; lia | rewrite Hlev; exact Hdepth |].
    split; [|exact IHd].
    rewrite IHe, Hstep, <- app_assoc. done.
Qed.

(** X10: in the nested list every entry sits exactly [level - 1] lists deep
    (one for a level-2 heading, three for a level-4 heading), also where the
    levels of the headings skip. *)
Theorem X10_entry_depth_is_level items :
  Forall (fun it => 2 <= item_level it) items ->
  entryDepths 0 (_buildNestedTOC items) =
  map (fun it => (it, item_level it - 1)) items.
Proof.
  intros Hitems.
  destruct (entryDepths_fold items ([OpenList], 2) Hitems) as [He [d Hd]];
    [simpl; lia | done |].
  unfold _buildNestedTOC, nestedWalk.
  destruct (fold_left nestedStep items ([OpenList], 2)) as [html prev].
  cbn [fst] in *.
  rewrite (entryDepths_app 0 d) by done.
  by rewrite entryDepths_replicate_close, app_nil_r, He.
Qed.

Lemma X10_entry_depth_is_level_witness :
  Forall (fun it => 2 <= item_level it) (map tocItem threeHeadings) /\
  map snd (entryDepths 0 (_buildNestedTOC (map tocItem threeHeadings))) = [1; 3; 2].
Proof.
  assert (H : Forall (fun it => 2 <= item_level it) (map tocItem threeHeadings)).
  { repeat constructor. }
  split; [exact H|].
  exact (f_equal (map snd) (X10_entry_depth_is_level (map tocItem threeHeadings) H)).
Defined.

End TocMore.

(* ================================================================== *)
(** * Part XIV.  Further properties of the page chrome                 *)
(* ================================================================== *)

Section LayoutMore.
Import JS Wiki Spec Samples.

Variables (hH fH sH : jsstring) (pt : option jsstring) (st : jsstring).

Implicit Types (i : jsstring) (n : Node) (forest : list Node) (d : Document).

Local Abbreviation hdr := (str "wiki-header").
Local Abbreviation ftr := (str "wiki-footer").
Local Abbreviation lay := (str "wiki-layout").
Local Abbreviation cnt := (str "wiki-content").

Lemma firstSome_app {A B} (f : A -> option B) (l1 l2 : list A) :
  firstSome f (l1 ++ l2) =
  match firstSome f l1 with Some r => Some r | None => firstSome f l2 end.
Proof.
  induction l1 as [|x l1 IH]; [done|]. simpl. by destruct (f x).
Qed.

Lemma rewriteFirst_firstSome {A B} (f : A -> option A) (g : A -> option B)
    (l l' : list A) :
  Forall (fun x => (forall x', f x = Some x' -> g x' = g x) /\
                   (f x = None -> g x = None)) l ->
  rewriteFirst f l = Some l' -> firstSome g l' = firstSome g l.
Proof.
  intros Hall. revert l'.
  induction Hall as [|x l [Hsome Hnone] _ IH]; intros l' Hl'; [done|].
  simpl in Hl'. destruct (f x) as [x'|] eqn:E.
  - injection Hl' as <-. simpl. by rewrite (Hsome x' eq_refl).
  - destruct (rewriteFirst f l) as [l''|]; [|done]. injection Hl' as <-.
    simpl. rewrite (Hnone eq_refl). by apply IH.
Qed.

Lemma wrapContent_keeps_content n :
  (forall n', wrapContent sH n = Some n' -> findById cnt n' = findById cnt n) /\
  (wrapContent sH n = None -> findById cnt n = None).
Proof.
  split; [|intros H; by apply findById_None, (wrapContent_None sH)].
  induction n as [html | tag j attrs children IH] using Node_ind;
    intros n' Hn'; [done|].
  cbn [wrapContent] in Hn'. case_bool_decide as Hj.
  - injection Hn' as <-. subst j. reflexivity.
  - destruct (rewriteFirst (wrapContent sH) children) as [children'|] eqn:E;
      [|done].
    injection Hn' as <-. cbn [findById].
    rewrite !bool_decide_eq_false_2 by done.
    apply (rewriteFirst_firstSome (wrapContent sH)); [|exact E].
    eapply Forall_impl; [exact IH|]. intros c Hc. split; [exact Hc|].
    intros H. by apply findById_None, (wrapContent_None sH).
Qed.

Lemma wrapForest_keeps_content forest forest' :
  rewriteFirst (wrapContent sH) forest = Some forest' ->
  querySelectorId cnt forest' = querySelectorId cnt forest.
Proof.
  apply rewriteFirst_firstSome, Forall_forall. intros n _.
  apply wrapContent_keeps_content.
Qed.

Lemma ensureHeader_le i forest :
  countIdIn i forest <= countIdIn i (ensureHeader hH forest).
Proof.
  unfold ensureHeader. destruct (querySelectorId hdr forest); [done|].
  unfold countIdIn. cbn [sum_list_with]. lia.
Qed.

Lemma ensureFooter_le i forest :
  countIdIn i forest <= countIdIn i (ensureFooter fH forest).
Proof.
  unfold ensureFooter. destruct (querySelectorId ftr forest); [done|].
  rewrite countIdIn_app. lia.
Qed.

Lemma ensure_keeps_content forest :
  querySelectorId cnt (ensureFooter fH (ensureHeader hH forest)) =
  querySelectorId cnt forest.
Proof.
  unfold ensureFooter, ensureHeader, querySelectorId.
  destruct (firstSome (findById hdr) forest);
    destruct (firstSome (findById ftr) _);
    rewrite ?firstSome_app; cbn [firstSome]; try done;
    try (by destruct (firstSome (findById cnt) forest)).
  all: change (findById cnt (headerEl hH)) with (@None Node);
    change (findById cnt (footerEl fH)) with (@None Node);
    by destruct (firstSome (findById cnt) forest).
Qed.

(** X11: [buildLayout] adds and never takes away: for every id the document
    has at least as many elements with it as before, the element that
    answers to [#wiki-content] is the one that did before, unchanged, and a
    document with content and without layout ends with one layout that
    holds the navigation and the outline panel. *)
Theorem X11_buildLayout_only_adds d :
  (forall i, countIdIn i (body d) <= countIdIn i (body (buildLayout hH fH sH pt st d))) /\
  querySelectorId cnt (body (buildLayout hH fH sH pt st d)) =
    querySelectorId cnt (body d) /\
  (countIdIn lay (body d) = 0 -> countIdIn cnt (body d) <> 0 ->
   countIdIn lay (body (buildLayout hH fH sH pt st d)) = 1 /\
   1 <= countIdIn (str "wiki-sidebar") (body (buildLayout hH fH sH pt st d)) /\
   1 <= countIdIn (str "wiki-toc-sidebar") (body (buildLayout hH fH sH pt st d))).
Proof.
  destruct (ensureHeader_counts hH (body d)) as (_ & _ & Hl1 & Hc1).
  destruct (ensureFooter_counts fH (ensureHeader hH (body d))) as (_ & _ & Hl2 & Hc2).
  rewrite Hl1 in Hl2. rewrite Hc1 in Hc2.
  assert (Hle : forall i, countIdIn i (body d) <=
                          countIdIn i (ensureFooter fH (ensureHeader hH (body d)))).
  { intros i. etrans; [apply ensureHeader_le | apply ensureFooter_le]. }
  destruct (buildLayout_cases hH fH sH pt st d)
    as [(Hl & ->) | [(Hl & Hc & ->) | (Hl & Hc & b3 & Hw & ->)]];
    rewrite ?updateTitle_body; cbn [body].
  - split; [exact Hle|]. split; [apply ensure_keeps_content|]. lia.
  - split; [exact Hle|]. split; [apply ensure_keeps_content|]. lia.
  - split.
    { intros i. rewrite (wrapForest_count sH i _ _ Hw). specialize (Hle i). lia. }
    split.
    { rewrite (wrapForest_keeps_content _ _ Hw). apply ensure_keeps_content. }
    intros _ _.
    rewrite !(wrapForest_count sH _ _ _ Hw), Hl.
    change (chromeIds lay) with 1.
    change (chromeIds (str "wiki-sidebar")) with 1.
    change (chromeIds (str "wiki-toc-sidebar")) with 1. lia.
Qed.

(** X12: the title of the document becomes "page title — site title" when
    [WIKI_PAGE.title] is set and the document has a layout or a content to
    wrap; on a document with neither, [buildLayout] returns before it
    reaches the title, which stays as it is. *)
Theorem X12_title_updated_unless_returned_early d :
  (countIdIn lay (body d) <> 0 \/ countIdIn cnt (body d) <> 0 ->
   doc_title (buildLayout hH fH sH pt st d) =
     match pt with
     | Some (c :: t) => (c :: t) ++ str " — " ++ st
     | _ => doc_title d
     end) /\
  (countIdIn lay (body d) = 0 -> countIdIn cnt (body d) = 0 ->
   doc_title (buildLayout hH fH sH pt st d) = doc_title d).
Proof.
  destruct (ensureHeader_counts hH (body d)) as (_ & _ & Hl1 & Hc1).
  destruct (ensureFooter_counts fH (ensureHeader hH (body d))) as (_ & _ & Hl2 & Hc2).
  rewrite Hl1 in Hl2. rewrite Hc1 in Hc2.
  destruct (buildLayout_cases hH fH sH pt st d)
    as [(Hl & ->) | [(Hl & Hc & ->) | (Hl & Hc & b3 & Hw & ->)]];
    (split; [intros Hsome | intros Hl0 Hc0]); try lia;
    try (unfold updateTitle; by destruct pt as [[|c t]|]).
Qed.

End LayoutMore.

Section LayoutInstances.
Import JS Wiki Spec Samples.

Lemma X11_buildLayout_only_adds_witness :
  countIdIn (str "wiki-layout") (body articleDocument) = 0 /\
  countIdIn (str "wiki-content") (body articleDocument) <> 0 /\
  countIdIn (str "wiki-layout")
    (body (buildLayout [] [] [] None [] articleDocument)) = 1.
Proof.
  assert (H1 : countIdIn (str "wiki-layout") (body articleDocument) = 0)
    by reflexivity.
  assert (H2 : countIdIn (str "wiki-content") (body articleDocument) <> 0)
    by (vm_compute; discriminate).
  split; [exact H1|]. split; [exact H2|].
  exact (proj1 (proj2 (proj2
    (X11_buildLayout_only_adds [] [] [] None [] articleDocument)) H1 H2)).
Defined.

Lemma X12_title_updated_unless_returned_early_witness :
  countIdIn (str "wiki-content") (body articleDocument) <> 0 /\
  doc_title (buildLayout [] [] [] (Some (str "Intro")) (str "MyWiki") articleDocument) =
    str "Intro — MyWiki" /\
  countIdIn (str "wiki-layout") (body bareDocument) = 0 /\
  countIdIn (str "wiki-content") (body bareDocument) = 0 /\
  doc_title (buildLayout [] [] [] (Some (str "Intro")) (str "MyWiki") bareDocument) =
    str "Untitled".
Proof.
  assert (H1 : countIdIn (str "wiki-content") (body articleDocument) <> 0)
    by (vm_compute; discriminate).
  assert (H2 : countIdIn (str "wiki-layout") (body bareDocument) = 0)
    by reflexivity.
  assert (H3 : countIdIn (str "wiki-content") (body bareDocument) = 0)
    by reflexivity.
  split; [exact H1|]. split.
  { exact (proj1 (X12_title_updated_unless_returned_early
             [] [] [] (Some (str "Intro")) (str "MyWiki") articleDocument)
           (or_intror H1)). }
  split; [exact H2|]. split; [exact H3|].
  exact (proj2 (X12_title_updated_unless_returned_early
           [] [] [] (Some (str "Intro")) (str "MyWiki") bareDocument) H2 H3).
Defined.

End LayoutInstances.

(* ================================================================== *)
(** * Part XV.  Further properties of the graph embeds                 *)
(* ================================================================== *)

Section DesmosMore.
Import JS Wiki Spec Samples.


Lemma forEachFrom_app_normal {A} (f : A -> nat -> M unit)
    (g : A -> nat -> list Event) (l1 l2 : list A) :
  Forall (fun x => forall i tr, f x i tr = (Normal (), tr ++ g x i)) l1 ->
  forall k tr,
    forEachFrom k f (l1 ++ l2) tr =
    forEachFrom (k + length l1) f l2
      (tr ++ concat (imap (fun j x => g x (k + j)) l1)).
Proof.
  induction 1 as [|x l1 Hx _ IH]; intros k tr.
  - simpl. by rewrite Nat.add_0_r, app_nil_r.
  - change ((x :: l1) ++ l2) with (x :: (l1 ++ l2)). cbn [forEachFrom].
    rewrite (bind_normal _ _ _ _ _ (Hx k tr)), IH.
    rewrite imap_cons. cbn [concat length]. rewrite Nat.add_0_r, <- app_assoc.
    rewrite (imap_ext (fun j y => g y (S k + j)) ((fun j y => g y (k + j)) ∘ S) l1).
    2:{ intros j y _. simpl. f_equal. lia. }
    f_equal. lia.
Qed.

Lemma wikiInitAllDesmos_step_parses (desmos : bool) (el : Container) (i : nat)
    (tr : list Event) :
  parses el ->
  (let height := default (str "400") (data_height el) in
   exprs ← JSON_parse (data_exprs el);
   opts ← JSON_parse (data_opts el);
   _ ← emit (HeightSet i (height ++ str "px"));
   if desmos then
     _ ← emit (Cleared i);
     _ ← emit (Created (OnContainer i) opts);
     forEach exprs (setExpression (OnContainer i))
   else mret ()) tr = (Normal (), tr ++ standaloneEvents desmos el i).
Proof.
  intros [He Ho]. unfold standaloneEvents.
  destruct (data_exprs el) as [exprs|]; [|done].
  destruct (data_opts el) as [opts|]; [|done].
  cbn [JSON_parse]. unfold mbind, M_bind, mret, M_ret, emit, forEach.
  destruct desmos; [|done].
  rewrite (forEachFrom_trace _ (fun expr j => [expressionEvent (OnContainer i) expr j]))
    by (intros; apply setExpression_trace).
  rewrite concat_imap_singleton, <- !app_assoc. done.
Qed.

Lemma wikiInitAllDesmos_step_fails (desmos : bool) (el : Container) (i : nat)
    (tr : list Event) :
  ~ parses el ->
  (let height := default (str "400") (data_height el) in
   exprs ← JSON_parse (data_exprs el);
   opts ← JSON_parse (data_opts el);
   _ ← emit (HeightSet i (height ++ str "px"));
   if desmos then
     _ ← emit (Cleared i);
     _ ← emit (Created (OnContainer i) opts);
     forEach exprs (setExpression (OnContainer i))
   else mret ()) tr = (Thrown SyntaxError, tr).
Proof.
  intros Hno. unfold parses in Hno.
  destruct (data_exprs el) as [exprs|]; [|done].
  destruct (data_opts el) as [opts|]; [|done].
  exfalso. apply Hno. split; discriminate.
Qed.



End DesmosMore.

(* ================================================================== *)
(** * Part XVI.  The sidebar                                           *)
(* ================================================================== *)

Section SidebarFacts.
Import JS Wiki Spec Samples.

Lemma split_not_nil (sep : ascii) (s : jsstring) : split sep s <> [].
Proof.
  induction s as [|c s IH]; simpl; [done|].
  case_bool_decide; [done|]. by destruct (split sep s).
Qed.

Lemma split_no_sep (sep : ascii) (s : jsstring) : sep ∉ s -> split sep s = [s].
Proof.
  induction s as [|c s IH]; intros H; [done|].
  apply not_elem_of_cons in H as [Hc Hs]. simpl.
  rewrite bool_decide_eq_false_2 by congruence. by rewrite IH.
Qed.

Lemma split_sep_two (sep : ascii) (s : jsstring) :
  sep ∈ s -> exists a b rest, split sep s = a :: b :: rest.
Proof.
  induction s as [|c s IH]; intros H; [by apply elem_of_nil in H|].
  simpl. case_bool_decide as Hc.
  - pose proof (split_not_nil sep s). destruct (split sep s) as [|b rest]; [done|].
    by exists [], b, rest.
  - apply elem_of_cons in H as [H|H]; [congruence|].
    destruct (IH H) as (a & b & rest & ->). by exists (c :: a), b, rest.
Qed.

Lemma lastSegment_cons (c : ascii) (s : jsstring) :
  lastSegment (c :: s) =
  if bool_decide (c = "/"%char) then lastSegment s
  else if bool_decide ("/"%char ∈ s) then lastSegment s
  else c :: s.
Proof.
  unfold lastSegment, pop. simpl. case_bool_decide as Hc.
  - pose proof (split_not_nil "/"%char s). by destruct (split "/"%char s).
  - case_bool_decide as Hs.
    + by destruct (split_sep_two _ _ Hs) as (a & b & rest & ->).
    + by rewrite (split_no_sep _ _ Hs).
Qed.

Lemma lastSegment_no_slash (s : jsstring) : "/"%char ∉ s -> lastSegment s = s.
Proof. intros H. unfold lastSegment, pop. by rewrite (split_no_sep _ _ H). Qed.

Lemma lastSegment_spec (s : jsstring) :
  ("/"%char ∉ lastSegment s) /\
  exists dir, s = dir ++ lastSegment s /\ (dir = [] \/ last dir = Some "/"%char).
Proof.
  induction s as [|c s (IHno & dir & IHs & IHdir)].
  - split; [apply not_elem_of_nil|]. exists []. by split; [|left].
  - rewrite lastSegment_cons. case_bool_decide as Hc; [|case_bool_decide as Hs].
    + split; [done|]. exists (c :: dir). split; [by rewrite IHs at 1|].
      right. subst c. destruct IHdir as [->|Hl]; [done|].
      destruct dir as [|d dir']; [done | exact Hl].
    + split; [done|]. exists (c :: dir). split; [by rewrite IHs at 1|].
      right. destruct IHdir as [->|Hl].
      * exfalso. simpl in IHs. rewrite <- IHs in IHno. done.
      * destruct dir as [|d dir']; [done | exact Hl].
    + split; [by apply not_elem_of_cons|]. exists []. by split; [|left].
Qed.

(** X15: the file name [path.split('/').pop()] holds no slash; it is the end
    of the path, and what stands before it is empty or ends with a slash;
    taking the file name of a file name changes nothing. *)
Theorem X15_lastSegment_is_file_name (path : jsstring) :
  ("/"%char ∉ lastSegment path) /\
  (exists dir, path = dir ++ lastSegment path /\
               (dir = [] \/ last dir = Some "/"%char)) /\
  lastSegment (lastSegment path) = lastSegment path.
Proof.
  destruct (lastSegment_spec path) as [Hno Hdir].
  split; [done|]. split; [done|]. by apply lastSegment_no_slash.
Qed.

Lemma highlightLink_active (current : jsstring) (a a' : NavLink) :
  highlightLink current a = Some a' ->
  href a' = href a /\
  (active a' = true <->
   active a = true \/ exists h, href a = Some h /\ lastSegment h = current).
Proof.
  unfold highlightLink. destruct (href a) as [h|] eqn:Hh; [|done].
  case_bool_decide as E; intros [= <-]; cbn [href active].
  - split; [done|]. split; [|done]. intros _. right. by exists h.
  - split; [done|]. split; [by left|].
    intros [H | (h' & Hh' & H)]; [done | congruence].
Qed.

Lemma highlightLink_again (current : jsstring) (a a' : NavLink) :
  highlightLink current a = Some a' -> highlightLink current a' = Some a'.
Proof.
  unfold highlightLink. destruct (href a) as [h|] eqn:Hh; [|done].
  case_bool_decide as E; intros [= <-]; cbn [href].
  - by rewrite bool_decide_eq_true_2.
  - by rewrite Hh, bool_decide_eq_false_2.
Qed.

(** X16: when every link of the sidebar has an [href], [highlightSidebar]
    keeps the links and their addresses and leaves a link marked exactly
    when it was marked before or the file name of its address is that of
    the current page, whatever the directories; a second call changes
    nothing.  When a link has no [href], the call throws. *)
Theorem X16_highlightSidebar_marks_by_file_name (pathname : jsstring)
    (links : list NavLink) :
  (Forall (fun a => is_Some (href a)) links ->
   exists links',
     highlightSidebar pathname links = Some links' /\
     highlightSidebar pathname links' = Some links' /\
     Forall2 (fun a a' =>
       href a' = href a /\
       (active a' = true <->
        active a = true \/
        exists h, href a = Some h /\ lastSegment h = currentPage pathname))
       links links') /\
  (Exists (fun a => href a = None) links -> highlightSidebar pathname links = None).
Proof.
  unfold highlightSidebar. split.
  - intros Hall.
    assert (is_Some (mapM (highlightLink (currentPage pathname)) links)) as [links' Hl].
    { apply mapM_is_Some. eapply Forall_impl; [exact Hall|].
      intros a [h Hh]. unfold compose, highlightLink. rewrite Hh. eauto. }
    exists links'. split; [exact Hl|].
    apply mapM_Some in Hl. split.
    + apply mapM_Some. clear Hall.
      induction Hl as [|a a' l l' Ha _ IH]; constructor; [|exact IH].
      by apply highlightLink_again in Ha.
    + eapply Forall2_impl; [exact Hl|]. intros a a'. apply highlightLink_active.
  - intros Hex. destruct (mapM _ links) as [links'|] eqn:E; [|done].
    exfalso. apply mapM_Some in E.
    induction E as [|a a' l l' Ha _ IH]; [by apply Exists_nil in Hex|].
    apply Exists_cons in Hex as [Hex|Hex]; [|by apply IH].
    unfold highlightLink in Ha. by rewrite Hex in Ha.
Qed.

Lemma X16_highlightSidebar_marks_by_file_name_witness :
  Forall (fun a => is_Some (href a))
    [ {| href := Some (str "index.html"); active := false |};
      {| href := Some (str "../dev/comp-tabs.html"); active := false |} ] /\
  highlightSidebar (str "/miniwiki/dev/comp-tabs.html")
    [ {| href := Some (str "index.html"); active := false |};
      {| href := Some (str "../dev/comp-tabs.html"); active := false |} ] =
  Some [ {| href := Some (str "index.html"); active := false |};
         {| href := Some (str "../dev/comp-tabs.html"); active := true |} ] /\
  Exists (fun a => href a = None) [ {| href := None; active := false |} ] /\
  highlightSidebar (str "/miniwiki/dev/comp-tabs.html")
    [ {| href := None; active := false |} ] = None.
Proof.
  assert (H1 : Forall (fun a => is_Some (href a))
    [ {| href := Some (str "index.html"); active := false |};
      {| href := Some (str "../dev/comp-tabs.html"); active := false |} ]).
  { apply List.Forall_cons; [by eexists|].
    apply List.Forall_cons; [by eexists|]. apply List.Forall_nil. }
  assert (H2 : Exists (fun a => href a = None) [ {| href := None; active := false |} ]).
  { apply List.Exists_cons_hd. reflexivity. }
  split; [exact H1|]. split.
  { destruct (proj1 (X16_highlightSidebar_marks_by_file_name
                       (str "/miniwiki/dev/comp-tabs.html") _) H1)
      as (links' & Hl & _).
    reflexivity. }
  split; [exact H2|].
  exact (proj2 (X16_highlightSidebar_marks_by_file_name
                  (str "/miniwiki/dev/comp-tabs.html") _) H2).
Defined.

Lemma sidebarAnchors_template_mark (pathname : jsstring) (a : NavLink)
    (pieces : list SidebarPiece) :
  Forall (fun piece => match piece with
                       | LinkItem l isActive =>
                           isActive = bool_decide (l_href l = lastSegment pathname)
                       | _ => True
                       end) pieces ->
  a ∈ sidebarAnchors pieces ->
  exists h, href a = Some h /\ active a = bool_decide (h = lastSegment pathname).
Proof.
  unfold sidebarAnchors. intros Hall Ha.
  apply list_elem_of_omap in Ha as (piece & Hin & Hp).
  rewrite Forall_forall in Hall. specialize (Hall piece Hin).
  destruct piece as [| | l isActive |]; try done.
  injection Hp as <-. exists (l_href l). by split.
Qed.

Lemma sidebarHTML_marks (ws : option (list SidebarSection))
    (cfg : list SidebarSection) (pathname : jsstring) :
  Forall (fun piece => match piece with
                       | LinkItem l isActive =>
                           isActive = bool_decide (l_href l = lastSegment pathname)
                       | _ => True
                       end) (_sidebarHTML ws cfg pathname).
Proof.
  unfold _sidebarHTML. destruct (default cfg ws) as [|sec sections]; [by repeat constructor|].
  apply Forall_concat, Forall_fmap, Forall_forall. intros s _. simpl.
  constructor; [done|]. apply Forall_app. split; [|by repeat constructor].
  apply Forall_fmap, Forall_forall. by intros l _.
Qed.

(** X17: on a page whose address ends in a file name, and for links whose
    [href] the markup carries as written, the mark that the template of the
    sidebar puts on a link is one that [highlightSidebar] puts as well: run
    on the links of the template, it gives the same result with the marks
    of the template taken off first. *)
Theorem X17_template_mark_is_redundant (ws : option (list SidebarSection))
    (cfg : list SidebarSection) (pathname : jsstring) :
  plainHrefs (default cfg ws) ->
  lastSegment pathname <> [] ->
  highlightSidebar pathname
    (map unmarked (sidebarAnchors (_sidebarHTML ws cfg pathname))) =
  highlightSidebar pathname (sidebarAnchors (_sidebarHTML ws cfg pathname)).
Proof.
  intros _ Hname. pose proof (sidebarHTML_marks ws cfg pathname) as Hmarks.
  assert (Hcur : currentPage pathname = lastSegment pathname).
  { unfold currentPage. by destruct (lastSegment pathname). }
  unfold highlightSidebar. rewrite Hcur.
  assert (Hall : Forall (fun a => exists h, href a = Some h /\
                           active a = bool_decide (h = lastSegment pathname))
                   (sidebarAnchors (_sidebarHTML ws cfg pathname))).
  { apply Forall_forall. intros a Ha.
    by apply (sidebarAnchors_template_mark pathname a _ Hmarks). }
  induction Hall as [|a l (h & Hh & Ha) _ IH]; [done|].
  assert (Hhead : highlightLink (lastSegment pathname) (unmarked a) =
                  highlightLink (lastSegment pathname) a).
  { unfold highlightLink, unmarked. cbn [href active]. rewrite Hh.
    destruct (bool_decide (lastSegment h = lastSegment pathname)) eqn:E;
      [reflexivity|].
    apply bool_decide_eq_false in E.
    destruct a as [ha aa]. cbn [href active] in *. subst ha aa.
    rewrite bool_decide_eq_false_2; [done|].
    intros ->. apply E. by apply lastSegment_no_slash, lastSegment_spec. }
  cbn [map mapM]. by rewrite Hhead, IH.
Qed.

Lemma X17_template_mark_is_redundant_witness :
  plainHrefs (default [] (Some devSidebar)) /\
  lastSegment (str "/miniwiki/dev/comp-tabs.html") <> [] /\
  highlightSidebar (str "/miniwiki/dev/comp-tabs.html")
    (map unmarked (sidebarAnchors
       (_sidebarHTML (Some devSidebar) [] (str "/miniwiki/dev/comp-tabs.html")))) =
  highlightSidebar (str "/miniwiki/dev/comp-tabs.html")
    (sidebarAnchors
       (_sidebarHTML (Some devSidebar) [] (str "/miniwiki/dev/comp-tabs.html"))).
Proof.
  assert (H : lastSegment (str "/miniwiki/dev/comp-tabs.html") <> [])
    by (vm_compute; discriminate).
  assert (Hp : plainHrefs (default [] (Some devSidebar))).
  { unfold plainHrefs. refine (bool_decide_unpack _ _). vm_compute. exact I. }
  split; [exact Hp|]. split; [exact H|].
  exact (X17_template_mark_is_redundant (Some devSidebar) [] _ Hp H).
Defined.

Example devSidebar_marks_one_link :
  map active (sidebarAnchors
    (_sidebarHTML (Some devSidebar) [] (str "/miniwiki/dev/comp-tabs.html"))) =
  replicate 8 false ++ [true] ++ replicate 6 false.
Proof. reflexivity. Qed.

Example no_sidebar_placeholder :
  _sidebarHTML None [] (str "/index.html") = [NoSidebar].
Proof. reflexivity. Qed.

End SidebarFacts.

(* ================================================================== *)
(** * Part XVII.  The widgets                                          *)
(* ================================================================== *)

Section TabFacts.
Import JS Wiki Spec Samples.

Lemma lookup_single_true (i j : nat) (l : list bool) :
  j < length l ->
  <[i := true]> (map (fun _ => false) l) !! j = Some (bool_decide (j = i)).
Proof.
  intros Hj. destruct (decide (j = i)) as [->|Hne].
  - rewrite list_lookup_insert_eq by (by rewrite length_map).
    by rewrite bool_decide_eq_true_2.
  - rewrite list_lookup_insert_ne by done.
    rewrite list_lookup_fmap. destruct (lookup_lt_is_Some_2 l j Hj) as [b ->].
    by rewrite bool_decide_eq_false_2.
Qed.

Lemma single_true_again (i k : nat) (l : list bool) :
  <[k := true]> (map (fun _ => false) (<[i := true]> (map (fun _ => false) l))) =
  <[k := true]> (map (fun _ => false) l).
Proof.
  f_equal. apply list_eq. intros j. rewrite !list_lookup_fmap.
  destruct (decide (j = i)) as [->|Hne].
  - destruct (decide (i < length l)) as [Hi|Hi].
    + rewrite list_lookup_insert_eq by (by rewrite length_map).
      by destruct (lookup_lt_is_Some_2 l i Hi) as [b ->].
    + rewrite list_insert_ge by (rewrite length_map; lia).
      by rewrite list_lookup_fmap, <- !option_fmap_compose.
  - rewrite list_lookup_insert_ne by done.
    by rewrite list_lookup_fmap, <- !option_fmap_compose.
Qed.

(** X18: after a click on the i-th tab button, the i-th button is the only
    active button and the i-th panel the only active panel (none if there
    are fewer panels); no button or panel is added or removed; and of two
    clicks the second alone decides. *)
Theorem X18_tab_click_is_exclusive (i : nat) (t : TabContainer) :
  length (buttons (clickTab i t)) = length (buttons t) /\
  length (panels (clickTab i t)) = length (panels t) /\
  (forall j, j < length (buttons t) ->
     buttons (clickTab i t) !! j = Some (bool_decide (j = i))) /\
  (forall j, j < length (panels t) ->
     panels (clickTab i t) !! j = Some (bool_decide (j = i))) /\
  forall k, clickTab k (clickTab i t) = clickTab k t.
Proof.
  unfold clickTab. cbn [buttons panels].
  split; [by rewrite length_insert, length_map|].
  split; [by rewrite length_insert, length_map|].
  split; [intros j; apply lookup_single_true|].
  split; [intros j; apply lookup_single_true|].
  intros k. by rewrite !single_true_again.
Qed.

End TabFacts.

Section CollapsibleFacts.
Import JS Wiki Spec Samples.

Lemma iter_negb (n : nat) (b : bool) :
  Nat.iter n negb b = if Nat.even n then b else negb b.
Proof.
  induction n as [|n IH]; [done|].
  rewrite Nat.even_succ, <- Nat.negb_even. simpl. rewrite IH.
  by destruct (Nat.even n), b.
Qed.

Lemma initCollapsible_iter (n : nat) (col : Collapsible) :
  hasHeader col = true ->
  Nat.iter n initCollapsible col =
  {| hasHeader := true;
     icons := if n =? 0 then icons col else Nat.max 1 (icons col);
     clickListeners := clickListeners col + n;
     isOpen := isOpen col |}.
Proof.
  intros Hh. induction n as [|n IH].
  - simpl. destruct col; simpl in *. subst. f_equal. lia.
  - simpl. rewrite IH. unfold initCollapsible. cbn.
    f_equal; [|lia].
    destruct n; simpl; [|by destruct (icons col)].
    destruct (icons col) eqn:E; simpl; [done | lia].
Qed.

(** X19: running [initCollapsibles] again never adds a second icon, but it
    adds a second click listener: after [n] runs on a section with a header
    a click toggles the section [n] times, so it opens the section when [n]
    is odd and leaves it as it was when [n] is even.  A section without
    header is left alone. *)
Theorem X19_collapsible_init_repeated (n : nat) (col : Collapsible) :
  (hasHeader col = true -> clickListeners col = 0 ->
   icons (Nat.iter n initCollapsible col) =
     (if n =? 0 then icons col else Nat.max 1 (icons col)) /\
   isOpen (clickHeader (Nat.iter n initCollapsible col)) =
     (if Nat.even n then isOpen col else negb (isOpen col))) /\
  (hasHeader col = false -> Nat.iter n initCollapsible col = col).
Proof.
  split.
  - intros Hh Hl. rewrite (initCollapsible_iter n col Hh).
    cbn [icons isOpen clickHeader clickListeners]. split; [done|].
    by rewrite Hl, iter_negb.
  - intros Hh. induction n as [|n IH]; [done|]. simpl. rewrite IH.
    unfold initCollapsible. by rewrite Hh.
Qed.

Lemma X19_collapsible_init_repeated_witness :
  hasHeader freshCollapsible = true /\
  clickListeners freshCollapsible = 0 /\
  icons (Nat.iter 2 initCollapsible freshCollapsible) = 1 /\
  isOpen (clickHeader (Nat.iter 2 initCollapsible freshCollapsible)) = false.
Proof.
  assert (H1 : hasHeader freshCollapsible = true) by reflexivity.
  assert (H2 : clickListeners freshCollapsible = 0) by reflexivity.
  split; [exact H1|]. split; [exact H2|].
  exact (proj1 (X19_collapsible_init_repeated 2 freshCollapsible) H1 H2).
Defined.

Example collapsible_init_twice :
  isOpen (clickHeader (initCollapsible freshCollapsible)) = true /\
  isOpen (clickHeader (initCollapsible (initCollapsible freshCollapsible))) = false /\
  icons (initCollapsible (initCollapsible freshCollapsible)) = 1.
Proof. repeat split. Qed.

End CollapsibleFacts.

Section OverlayFacts.
Import JS Wiki Spec Samples.

Implicit Types (idx : option (list PageDescriptor)) (s : SearchOverlay).

Lemma searchStep_in_sync idx input s ev :
  overlayInSync idx input s -> overlayInSync idx input (searchStep idx s ev).
Proof.
  intros Hs. destruct ev; cbn [searchStep]; try (by right); exact Hs.
Qed.

Lemma fold_in_sync idx input (events : list SearchEvent) s :
  overlayInSync idx input s ->
  overlayInSync idx input (fold_left (searchStep idx) events s).
Proof.
  revert s. induction events as [|ev events IH]; intros s Hs; [done|].
  cbn [fold_left]. by apply IH, searchStep_in_sync.
Qed.

(** X20: whatever the user does, the results shown in the overlay are those
    of [_runSearch] for the value its input holds (or the overlay is as
    [initSearch] made it); and opening the overlay after closing it always
    starts from an empty input and the "start typing" placeholder. *)
Theorem X20_overlay_shows_its_query idx (input : option jsstring)
    (events : list SearchEvent) :
  overlayInSync idx input (fold_left (searchStep idx) events (initSearch input)) /\
  forall s,
    overlayInput (openSearch idx (closeSearch s)) = [] /\
    results (openSearch idx (closeSearch s)) =
      {| matches := []; innerHTML := startTyping |}.
Proof.
  split.
  - apply fold_in_sync. by left.
  - intros s. unfold openSearch, closeSearch. cbn [headerInput overlayInput results].
    by destruct (headerInput s).
Qed.

End OverlayFacts.

Section LightboxFacts.
Import JS Wiki Spec Samples.

Lemma lightboxStep_consistent overflow lb ev :
  lightboxConsistent overflow lb -> lightboxConsistent overflow (lightboxStep lb ev).
Proof.
  intros H. destruct ev as [img | | key]; cbn [lightboxStep].
  - by left.
  - right. split; [done | by left].
  - destruct (_ && _); [|exact H]. right. split; [done | by left].
Qed.

(** X21: through every sequence of clicks and key presses the lightbox is
    either shown, and then the page cannot scroll ([overflow] is [hidden]),
    or hidden, and then [overflow] is empty or what it was before the
    lightbox was first shown. *)
Theorem X21_lightbox_locks_scroll_while_shown (overflow : jsstring)
    (events : list LightboxEvent) :
  let lb := fold_left lightboxStep events (initGalleryLightbox overflow) in
  (lb_display lb = str "flex" /\ bodyOverflow lb = str "hidden") \/
  (lb_display lb = str "none" /\ (bodyOverflow lb = [] \/ bodyOverflow lb = overflow)).
Proof.
  cbv zeta.
  assert (H0 : lightboxConsistent overflow (initGalleryLightbox overflow)).
  { right. split; [done | by right]. }
  revert H0. generalize (initGalleryLightbox overflow).
  induction events as [|ev events IH]; intros lb Hlb; [exact Hlb|].
  cbn [fold_left]. by apply IH, lightboxStep_consistent.
Qed.

End LightboxFacts.

Section ThemeFacts.
Import JS Wiki Spec Samples.

(** X22: the theme survives a reload: after [toggleTheme] the stored value
    is "dark" exactly when the page is dark, and [initTheme] on the reloaded
    page brings back the theme the page had; two toggles bring the page
    back to the theme it started from. *)
Theorem X22_theme_survives_reload (t : Theme) :
  (stored (toggleTheme t) = Some (str "dark") <-> darkClass (toggleTheme t) = true) /\
  darkClass (initTheme (reload (toggleTheme t))) = darkClass (toggleTheme t) /\
  darkClass (toggleTheme (toggleTheme t)) = darkClass t.
Proof.
  destruct t as [[] st]; repeat split; try done; cbn; intros H; discriminate H.
Qed.

End ThemeFacts.

Section ExternalLinkFacts.
Import JS Wiki Spec Samples.

Lemma markExternalLink_external (pageHost : jsstring) (a : Anchor) :
  isExternal pageHost a ->
  markExternalLink pageHost a =
  {| a_href := a_href a; a_hostname := a_hostname a;
     a_target := Some (str "_blank"); a_rel := Some (str "noopener noreferrer");
     hasExtIcon := hasExtIcon a;
     arrows := if hasExtIcon a then arrows a else S (arrows a) |}.
Proof.
  intros (Hhttp & Hhost & Hpage). unfold markExternalLink.
  rewrite Hhttp. cbn [negb].
  by rewrite !bool_decide_eq_false_2.
Qed.

Lemma markExternalLink_iter (pageHost : jsstring) (a : Anchor) (n : nat) :
  isExternal pageHost a ->
  Nat.iter (S n) (markExternalLink pageHost) a =
  {| a_href := a_href a; a_hostname := a_hostname a;
     a_target := Some (str "_blank"); a_rel := Some (str "noopener noreferrer");
     hasExtIcon := hasExtIcon a;
     arrows := if hasExtIcon a then arrows a else arrows a + S n |}.
Proof.
  intros Hext. induction n as [|n IH].
  - simpl. rewrite (markExternalLink_external _ _ Hext).
    f_equal. destruct (hasExtIcon a); lia.
  - change (Nat.iter (S (S n)) (markExternalLink pageHost) a)
      with (markExternalLink pageHost (Nat.iter (S n) (markExternalLink pageHost) a)).
    rewrite IH, markExternalLink_external.
    + cbn. f_equal. destruct (hasExtIcon a); lia.
    + destruct Hext as (? & ? & ?). by repeat split.
Qed.

(** X23: [markExternalLinks] leaves alone every link that does not start
    with "http", has no host or has the host of the page.  An external link
    gets [target="_blank"] and [rel="noopener noreferrer"]; the arrow it
    appends is not an [.ext-icon], so each further call appends one more
    arrow to an external link without [.ext-icon]. *)
Theorem X23_external_links_marked_each_call (pageHost : jsstring) (a : Anchor) :
  (~ isExternal pageHost a -> markExternalLink pageHost a = a) /\
  (isExternal pageHost a ->
   forall n,
     let a' := Nat.iter (S n) (markExternalLink pageHost) a in
     a_target a' = Some (str "_blank") /\
     a_rel a' = Some (str "noopener noreferrer") /\
     a_href a' = a_href a /\
     arrows a' = if hasExtIcon a then arrows a else arrows a + S n).
Proof.
  split.
  - intros Hno. unfold markExternalLink, isExternal in *.
    destruct (startsWith (a_href a) (str "http")); cbn [negb]; [|done].
    repeat case_bool_decide; cbn [orb]; try done.
    exfalso. apply Hno. by repeat split.
  - intros Hext n. cbv zeta. by rewrite (markExternalLink_iter _ _ n Hext).
Qed.

Lemma X23_external_links_marked_each_call_witness :
  isExternal (str "example.org") katexLink /\
  arrows (Nat.iter 2 (markExternalLink (str "example.org")) katexLink) = 2.
Proof.
  assert (H : isExternal (str "example.org") katexLink).
  { split; [reflexivity|]. split; vm_compute; discriminate. }
  split; [exact H|].
  exact (proj2 (proj2 (proj2
    (proj2 (X23_external_links_marked_each_call (str "example.org") katexLink)
       H 1)))).
Defined.

Example katexLink_twice :
  arrows (markExternalLink (str "example.org")
            (markExternalLink (str "example.org") katexLink)) = 2.
Proof. reflexivity. Qed.

End ExternalLinkFacts.

Section ScrollSpyFacts.
Import JS Wiki Spec Samples.

Lemma deactivate_activateFirst (h : jsstring) (links : list SpyLink) :
  map deactivate (activateFirst h (map deactivate links)) = map deactivate links.
Proof.
  induction links as [|l links IH]; [done|].
  cbn [map activateFirst deactivate s_href].
  case_bool_decide; cbn [map].
  - f_equal. rewrite <- list_fmap_compose. by apply list_fmap_ext.
  - by rewrite IH.
Qed.

Lemma activeCount_cons (l : SpyLink) (links : list SpyLink) :
  activeCount (l :: links) = (if s_active l then 1 else 0) + activeCount links.
Proof.
  unfold activeCount. rewrite filter_cons.
  destruct (decide (s_active l = true)) as [E|E].
  - by rewrite E.
  - by destruct (s_active l).
Qed.

Lemma activeCount_deactivated (links : list SpyLink) :
  activeCount (map deactivate links) = 0.
Proof.
  induction links as [|l links IH]; [done|].
  cbn [map]. by rewrite activeCount_cons, IH.
Qed.

Lemma activeCount_activateFirst (h : jsstring) (links : list SpyLink) :
  activeCount (activateFirst h (map deactivate links)) =
  if bool_decide (h ∈ map s_href links) then 1 else 0.
Proof.
  induction links as [|l links IH].
  - rewrite bool_decide_eq_false_2; [done | apply not_elem_of_nil].
  - cbn [map activateFirst deactivate s_href].
    destruct (decide (s_href l = h)) as [E|E].
    + rewrite (bool_decide_eq_true_2 _ E).
      rewrite bool_decide_eq_true_2 by (rewrite E; apply list_elem_of_here).
      by rewrite activeCount_cons, activeCount_deactivated.
    + rewrite (bool_decide_eq_false_2 _ E).
      rewrite activeCount_cons, IH. cbn [deactivate s_active Nat.add].
      rewrite (bool_decide_ext (h ∈ s_href l :: map s_href links)
                 (h ∈ map s_href links)); [done|].
      rewrite elem_of_cons. split; [intros [->|?]; [done|done] | by right].
Qed.

Lemma spyCallback_from (links : list SpyLink) (entries : list SpyEntry) (base : list SpyLink) :
  map deactivate links = map deactivate base ->
  fold_left spyEntry entries links =
  match last (intersecting entries) with
  | None => links
  | Some e => activateFirst (str "#" ++ targetId e) (map deactivate base)
  end.
Proof.
  revert links. induction entries as [|e entries IH]; intros links Hl; [done|].
  cbn [fold_left]. unfold intersecting in *. rewrite filter_cons.
  unfold spyEntry at 2. destruct (isIntersecting e) eqn:He.
  - rewrite decide_True by done.
    rewrite IH by (by rewrite deactivate_activateFirst).
    destruct (filter _ entries) as [|e' rest] eqn:Ef; [by rewrite Hl|].
    rewrite last_cons_cons.
    destruct (last (e' :: rest)) eqn:El; [done|]. by apply last_None in El.
  - rewrite decide_False by done. by apply IH.
Qed.

(** X24: of the entries handed to the observer's callback the last one that
    intersects decides: the result is the list of links with every mark
    removed and then the first link whose [href] is "#" followed by the id
    of that entry's heading marked; if no entry intersects nothing changes.
    After such a step at most one link is marked, and exactly one when some
    link points to the heading. *)
Theorem X24_scroll_spy_last_entry_decides (links : list SpyLink)
    (entries : list SpyEntry) :
  spyCallback links entries =
    match last (intersecting entries) with
    | None => links
    | Some e => activateFirst (str "#" ++ targetId e) (map deactivate links)
    end /\
  (forall h, activeCount (activateFirst h (map deactivate links)) =
             if bool_decide (h ∈ map s_href links) then 1 else 0) /\
  map s_href (spyCallback links entries) = map s_href links.
Proof.
  assert (Hcb := spyCallback_from links entries links eq_refl).
  split; [exact Hcb|]. split; [intros h; apply activeCount_activateFirst|].
  unfold spyCallback. rewrite Hcb. destruct (last _) as [e|]; [|done].
  transitivity (map s_href (map deactivate
    (activateFirst (str "#" ++ targetId e) (map deactivate links)))).
  - rewrite <- list_fmap_compose. by apply list_fmap_ext.
  - rewrite deactivate_activateFirst, <- list_fmap_compose. by apply list_fmap_ext.
Qed.

End ScrollSpyFacts.

Section WikiDesmosFacts.
Import JS Wiki Spec Samples.

Variable BLUE : jsstring.

Lemma helper_ids (at_ : Mount) (expressions : list ExprSpec) (k : nat) :
  expressionIds (imap (fun i => helperExpression BLUE at_ (k + i)) expressions) =
  imap (fun i _ => str "eq" ++ numeral (k + i)) expressions.
Proof.
  revert k. induction expressions as [|e es IH]; intros k; [done|].
  rewrite !imap_cons. unfold expressionIds in *. cbn [omap].
  rewrite (imap_ext _ (fun i => helperExpression BLUE at_ (S k + i)))
    by (intros; unfold compose; by rewrite Nat.add_succ_r).
  rewrite (imap_ext (_ ∘ S) (fun i _ => str "eq" ++ numeral (S k + i)))
    by (intros; unfold compose; by rewrite Nat.add_succ_r).
  rewrite <- IH.
  destruct e as [latex [[|c color]|] | latex]; cbn; done.
Qed.

Lemma helper_colors (at_ : Mount) (expressions : list ExprSpec) (k : nat) :
  BLUE <> [] ->
  Forall (fun color => exists col, color = Some col /\ col <> [])
    (expressionColors (imap (fun i => helperExpression BLUE at_ (k + i)) expressions)).
Proof.
  intros HB. revert k. induction expressions as [|e es IH]; intros k.
  - constructor.
  - rewrite imap_cons. unfold expressionColors in *. cbn [omap].
    rewrite (imap_ext _ (fun i => helperExpression BLUE at_ (S k + i)))
      by (intros; unfold compose; by rewrite Nat.add_succ_r).
    destruct e as [latex [[|c color]|] | latex];
      (apply List.Forall_cons; [eexists; split; [reflexivity | done] | apply IH]).
Qed.

Lemma eq_ids_NoDup (k : nat) (expressions : list ExprSpec) :
  NoDup (imap (fun i (_ : ExprSpec) => str "eq" ++ numeral (k + i)) expressions).
Proof.
  revert k. induction expressions as [|e es IH]; intros k; [constructor|].
  rewrite imap_cons. constructor.
  - intros Hin. apply list_elem_of_lookup in Hin as [j Hj].
    rewrite list_lookup_imap in Hj.
    destruct (es !! j); [|done]. cbn in Hj. injection Hj as Hj.
    apply numeral_inj in Hj. lia.
  - rewrite (imap_ext _ (fun i _ => str "eq" ++ numeral (S k + i)))
      by (intros; unfold compose; by rewrite Nat.add_succ_r).
    apply IH.
Qed.

(** X25: with the library loaded and the container found, [wikiDesmos]
    creates one calculator and sets one expression per element of
    [expressions], in order, with the ids eq0, eq1, ...: no two of them
    share an id, so no expression overwrites another, and each has a
    non-empty color (its own, or [Desmos.Colors.BLUE]). *)
Theorem X25_wikiDesmos_sets_every_expression (c : nat)
    (expressions : list ExprSpec) (options : Options) :
  BLUE <> [] ->
  exists events,
    wikiDesmos BLUE (Some c) true expressions options =
      Calculator (Created (OnContainer c) (helperDefaults ++ options) :: events) /\
    expressionIds events = imap (fun i _ => str "eq" ++ numeral i) expressions /\
    NoDup (expressionIds events) /\
    Forall (fun color => exists col, color = Some col /\ col <> [])
      (expressionColors events).
Proof.
  intros HB.
  exists (imap (fun i => helperExpression BLUE (OnContainer c) (0 + i)) expressions).
  split; [reflexivity|].
  pose proof (helper_ids (OnContainer c) expressions 0) as Hids.
  split; [exact Hids|]. split.
  - rewrite Hids. apply (eq_ids_NoDup 0).
  - exact (helper_colors (OnContainer c) expressions 0 HB).
Qed.

End WikiDesmosFacts.

Section WikiDesmosInstances.
Import JS Wiki Spec Samples.

Lemma X25_wikiDesmos_sets_every_expression_witness :
  str "#2d70b3" <> [] /\
  exists events,
    wikiDesmos (str "#2d70b3") (Some 0) true
      [ExprString (str "y=x^2"); ExprObject (str "y=\sin(x)") (Some (str "#c74440"))]
      [] =
      Calculator (Created (OnContainer 0) (helperDefaults ++ []) :: events) /\
    expressionIds events = [str "eq0"; str "eq1"] /\
    NoDup (expressionIds events) /\
    Forall (fun color => exists col, color = Some col /\ col <> [])
      (expressionColors events).
Proof.
  assert (H : str "#2d70b3" <> []) by (vm_compute; discriminate).
  split; [exact H|].
  exact (X25_wikiDesmos_sets_every_expression (str "#2d70b3") 0
    [ExprString (str "y=x^2"); ExprObject (str "y=\sin(x)") (Some (str "#c74440"))]
    [] H).
Defined.

End WikiDesmosInstances.
